(** * A shallow embedding of the database-evaluation harness

    Two TypeScript scripts are modelled:

    - [scripts/schema-generator.ts]: clean-up of the completion text, the
      regular-expression extraction of the JSON object, [JSON.parse], the
      fallback to [mockSchema], and the SQL renderer [generateSQL];
    - [scripts/benchmark.ts]: the operation timer [measureOperation], the
      three workload runners and the aggregation of [printResults].

    JavaScript strings are sequences of UTF-16 code units and are modelled as
    [list N]; JavaScript numbers are IEEE-754 binary64 values and are
    modelled by the primitive [float] type. *)

From Stdlib Require Import String Ascii.
From Stdlib Require Import List NArith ZArith Bool Lia.
From Stdlib Require Import Floats Uint63 Permutation.
Import ListNotations.

Set Implicit Arguments.

(* ================================================================== *)
(** * JavaScript strings *)
(* ================================================================== *)

Module Js.

(** A string is its sequence of code units. *)
Definition jsstring := list N.

(** A string literal of the source (all of them are ASCII). *)
Definition lit (s : string) : jsstring :=
  map N_of_ascii (list_ascii_of_string s).

(** A literal of the source that contains double quotes, written here
    with an apostrophe in the place of each of them. *)
Definition dq (s : string) : jsstring :=
  map (fun c => if (c =? 39)%N then 34%N else c) (lit s).

Fixpoint eqb (a b : jsstring) : bool :=
  match a, b with
  | [], [] => true
  | x :: a', y :: b' => N.eqb x y && eqb a' b'
  | _, _ => false
  end.

(** [Array.prototype.join] on an array of strings. *)
Fixpoint join (sep : jsstring) (parts : list jsstring) : jsstring :=
  match parts with
  | [] => []
  | [p] => p
  | p :: rest => p ++ sep ++ join sep rest
  end.

(** [s.startsWith(p)]. *)
Fixpoint startsWith (p s : jsstring) : bool :=
  match p, s with
  | [], _ => true
  | x :: p', y :: s' => N.eqb x y && startsWith p' s'
  | _ :: _, [] => false
  end.

(** Number of positions of [s] at which [p] occurs. *)
Fixpoint occurrences (p s : jsstring) : nat :=
  match s with
  | [] => if startsWith p [] then 1 else 0
  | _ :: s' => (if startsWith p s then 1 else 0) + occurrences p s'
  end.

(** Whether the code unit [c] occurs in [s]. *)
Definition contains (c : N) (s : jsstring) : bool := existsb (N.eqb c) s.

(** The line feed, written [\n] in the source. *)
Definition LF : N := 10.

End Js.

Import Js.

(* ================================================================== *)
(** * JSON values and [JSON.parse] *)
(* ================================================================== *)

Module Json.

(** What [JSON.parse] can build.  A number keeps its lexeme: nothing in
    the scripts does arithmetic on a parsed number. *)
#[warnings="-register-all"]
Inductive value : Type :=
| JNull
| JBool (b : bool)
| JNumber (lexeme : jsstring)
| JString (s : jsstring)
| JArray (elements : list value)
| JObject (members : list (jsstring * value)).

(** Result of a parsing function: a value and the unread text, a syntax
    error, or a recursion budget that ran out ([parse_total] shows the
    budget of [parse] never does). *)
Inductive parsed (A : Type) : Type :=
| Parsed (a : A) (rest : jsstring)
| Invalid
| Exhausted.
Arguments Invalid {A}.
Arguments Exhausted {A}.

(** JSON white space: tab, line feed, carriage return, space. *)
Definition isWs (c : N) : bool :=
  (c =? 9)%N || (c =? 10)%N || (c =? 13)%N || (c =? 32)%N.

Fixpoint skipWs (s : jsstring) : jsstring :=
  match s with
  | c :: s' => if isWs c then skipWs s' else s
  | [] => []
  end.

Definition isDigit (c : N) : bool := (48 <=? c)%N && (c <=? 57)%N.

Definition hexDigit (c : N) : option N :=
  if isDigit c then Some (c - 48)%N
  else if (97 <=? c)%N && (c <=? 102)%N then Some (c - 87)%N
  else if (65 <=? c)%N && (c <=? 70)%N then Some (c - 55)%N
  else None.

Definition hex4 (a b c d : N) : option N :=
  match hexDigit a, hexDigit b, hexDigit c, hexDigit d with
  | Some x, Some y, Some z, Some w => Some (((x * 16 + y) * 16 + z) * 16 + w)%N
  | _, _, _, _ => None
  end.

(** The character after a backslash, other than [u]. *)
Definition unescape (e : N) : option N :=
  if (e =? 34)%N then Some 34%N            (* quote *)
  else if (e =? 92)%N then Some 92%N       (* backslash *)
  else if (e =? 47)%N then Some 47%N       (* slash *)
  else if (e =? 98)%N then Some 8%N        (* b: backspace *)
  else if (e =? 102)%N then Some 12%N      (* f: form feed *)
  else if (e =? 110)%N then Some 10%N      (* n: line feed *)
  else if (e =? 114)%N then Some 13%N      (* r: carriage return *)
  else if (e =? 116)%N then Some 9%N       (* t: tab *)
  else None.

(** The characters of a string literal, read after its opening quote. *)
Fixpoint stringChars (s : jsstring) : option (jsstring * jsstring) :=
  match s with
  | [] => None
  | c :: s' =>
    if (c =? 34)%N then Some ([], s')
    else if (c =? 92)%N then
      match s' with
      | [] => None
      | e :: s'' =>
        if (e =? 117)%N then
          match s'' with
          | h1 :: h2 :: h3 :: h4 :: s3 =>
            match hex4 h1 h2 h3 h4, stringChars s3 with
            | Some u, Some (str, rest) => Some (u :: str, rest)
            | _, _ => None
            end
          | _ => None
          end
        else
          match unescape e, stringChars s'' with
          | Some u, Some (str, rest) => Some (u :: str, rest)
          | _, _ => None
          end
      end
    else if (c <? 32)%N then None
    else
      match stringChars s' with
      | Some (str, rest) => Some (c :: str, rest)
      | None => None
      end
  end.

(** The longest run of digits at the head of the text. *)
Fixpoint digits (s : jsstring) : jsstring * jsstring :=
  match s with
  | c :: s' =>
    if isDigit c then let (ds, rest) := digits s' in (c :: ds, rest)
    else ([], s)
  | [] => ([], [])
  end.

(** The text behind the character [c], when the text starts with it. *)
Definition expect (c : N) (s : jsstring) : option jsstring :=
  match s with
  | x :: r => if (x =? c)%N then Some r else None
  | [] => None
  end.

(** A number: an optional minus sign, an integer part (a lone zero, or a
    non-zero digit and more digits), an optional fraction (a dot and at
    least one digit), an optional exponent (e or E, an optional sign, at
    least one digit). *)
Definition intPart (s : jsstring) : option (jsstring * jsstring) :=
  match s with
  | d :: r =>
    if (d =? 48)%N then Some ([d], r)
    else if isDigit d then let (ds, rest) := digits r in Some (d :: ds, rest)
    else None
  | [] => None
  end.

Definition fracPart (s : jsstring) : option (jsstring * jsstring) :=
  match expect 46 s with
  | Some r =>
    match digits r with
    | ([], _) => None
    | (ds, rest) => Some (46%N :: ds, rest)
    end
  | None => Some ([], s)
  end.

Definition signPart (s : jsstring) : jsstring * jsstring :=
  match expect 43 s, expect 45 s with
  | Some r, _ => ([43%N], r)
  | None, Some r => ([45%N], r)
  | None, None => ([], s)
  end.

Definition expPart (s : jsstring) : option (jsstring * jsstring) :=
  match s with
  | e :: r =>
    if (e =? 101)%N || (e =? 69)%N then
      let (sign, r1) := signPart r in
      match digits r1 with
      | ([], _) => None
      | (ds, rest) => Some (e :: sign ++ ds, rest)
      end
    else Some ([], s)
  | [] => Some ([], s)
  end.

Definition number (s : jsstring) : option (jsstring * jsstring) :=
  let (sign, s1) :=
    match expect 45 s with
    | Some r => ([45%N], r)
    | None => ([], s)
    end in
  match intPart s1 with
  | None => None
  | Some (i, s2) =>
    match fracPart s2 with
    | None => None
    | Some (f, s3) =>
      match expPart s3 with
      | None => None
      | Some (e, s4) => Some (sign ++ i ++ f ++ e, s4)
      end
    end
  end.

(** Defining a property that may already exist: its value is replaced,
    its place kept. *)
Fixpoint setMember (k : jsstring) (v : value)
    (ms : list (jsstring * value)) : list (jsstring * value) :=
  match ms with
  | [] => [(k, v)]
  | (k', v') :: ms' =>
    if Js.eqb k' k then (k', v) :: ms' else (k', v') :: setMember k v ms'
  end.

(** Recursive descent.  [value_] reads one value; [elements] stands at the
    first character of an array element, [members] at the first character
    of an object member, each with what the container already holds.
    Code units: 123 and 125 the braces, 91 and 93 the brackets, 34 the
    double quote, 44 the comma, 58 the colon. *)
Fixpoint value_ (fuel : nat) (s : jsstring) {struct fuel} : parsed value :=
  match fuel with
  | O => Exhausted
  | S fuel' =>
    match skipWs s with
    | [] => Invalid
    | c :: r =>
      if (c =? 123)%N then
        match expect 125 (skipWs r) with
        | Some r' => Parsed (JObject []) r'
        | None => members fuel' (skipWs r) []
        end
      else if (c =? 91)%N then
        match expect 93 (skipWs r) with
        | Some r' => Parsed (JArray []) r'
        | None => elements fuel' (skipWs r) []
        end
      else if (c =? 34)%N then
        match stringChars r with
        | Some (str, r') => Parsed (JString str) r'
        | None => Invalid
        end
      else if Js.startsWith (lit "true") (c :: r) then
        Parsed (JBool true) (skipn 3 r)
      else if Js.startsWith (lit "false") (c :: r) then
        Parsed (JBool false) (skipn 4 r)
      else if Js.startsWith (lit "null") (c :: r) then
        Parsed JNull (skipn 3 r)
      else
        match number (c :: r) with
        | Some (lexeme, r') => Parsed (JNumber lexeme) r'
        | None => Invalid
        end
    end
  end

with elements (fuel : nat) (s : jsstring) (acc : list value)
    {struct fuel} : parsed value :=
  match fuel with
  | O => Exhausted
  | S fuel' =>
    match value_ fuel' s with
    | Parsed v r =>
      match expect 44 (skipWs r), expect 93 (skipWs r) with
      | Some r', _ => elements fuel' r' (acc ++ [v])
      | None, Some r' => Parsed (JArray (acc ++ [v])) r'
      | None, None => Invalid
      end
    | Invalid => Invalid
    | Exhausted => Exhausted
    end
  end

with members (fuel : nat) (s : jsstring) (acc : list (jsstring * value))
    {struct fuel} : parsed value :=
  match fuel with
  | O => Exhausted
  | S fuel' =>
    match expect 34 (skipWs s) with
    | None => Invalid
    | Some r =>
      match stringChars r with
      | None => Invalid
      | Some (k, r1) =>
        match expect 58 (skipWs r1) with
        | None => Invalid
        | Some r2 =>
          match value_ fuel' r2 with
          | Parsed v r3 =>
            match expect 44 (skipWs r3), expect 125 (skipWs r3) with
            | Some r4, _ => members fuel' r4 (setMember k v acc)
            | None, Some r4 => Parsed (JObject (setMember k v acc)) r4
            | None, None => Invalid
            end
          | Invalid => Invalid
          | Exhausted => Exhausted
          end
        end
      end
    end
  end.

(** [JSON.parse(text)]: [None] is the [SyntaxError] it throws. *)
Definition parse (text : jsstring) : option value :=
  match value_ (2 * length text + 2) text with
  | Parsed v rest =>
    match skipWs rest with
    | [] => Some v
    | _ :: _ => None
    end
  | _ => None
  end.

(** Reading a property of an object built by [JSON.parse]: its own
    properties only, [None] for [undefined]. *)
Fixpoint lookup (k : jsstring) (ms : list (jsstring * value))
  : option value :=
  match ms with
  | [] => None
  | (k', v) :: ms' => if Js.eqb k' k then Some v else lookup k ms'
  end.

End Json.

Import Json.

(* ================================================================== *)
(** * How an awaited call ends *)
(* ================================================================== *)

(** What a [catch] clause can receive: an instance of [Error] with its
    message, or any other value. *)
Inductive thrown : Type :=
| ErrorInstance (message : jsstring)
| NotAnError (v : option value).

(** A settled promise (a call that never settles has no outcome at all,
    and is outside the model). *)
Inductive settled (A : Type) : Type :=
| Fulfilled (a : A)
| Rejected (e : thrown).
Arguments Rejected {A} e.

(* ================================================================== *)
(** * The schema data model and the SQL renderer *)
(* ================================================================== *)

Module SchemaField.
Record t : Type := mk {
  name : jsstring;
  type : jsstring;
  constraints : list jsstring;
  description : jsstring
}.
End SchemaField.

Module TableSchema.
Record t : Type := mk {
  name : jsstring;
  fields : list SchemaField.t;
  relationships : list jsstring;
  indexes : list jsstring
}.
End TableSchema.

Module Render.

(** The arrow function mapped over [table.fields]:
    [`  ${field.name} ${field.type} ${constraints}`]. *)
Definition fieldLine (field : SchemaField.t) : jsstring :=
  let constraints := join (lit " ") (SchemaField.constraints field) in
  lit "  " ++ SchemaField.name field ++ lit " " ++ SchemaField.type field
    ++ lit " " ++ constraints.

(** The template literal pushed for a table; it opens with a line feed. *)
Definition createTable (table : TableSchema.t) : jsstring :=
  let fields :=
    join (lit "," ++ [LF]) (map fieldLine (TableSchema.fields table)) in
  [LF] ++ lit "CREATE TABLE " ++ TableSchema.name table ++ lit " (" ++ [LF]
    ++ fields ++ [LF] ++ lit ");".

(** [sqlStatements.push(x)]. *)
Definition push (sqlStatements : list jsstring) (x : jsstring)
  : list jsstring := sqlStatements ++ [x].

(** The inner loop [for (const index of table.indexes)]. *)
Definition pushIndexes (indexes : list jsstring)
    (sqlStatements : list jsstring) : list jsstring :=
  fold_left push indexes sqlStatements.

(** What one table adds to the array. *)
Definition block (table : TableSchema.t) : list jsstring :=
  createTable table :: TableSchema.indexes table.

(** One iteration of the outer loop [for (const table of schema)]. *)
Definition renderTable (sqlStatements : list jsstring)
    (table : TableSchema.t) : list jsstring :=
  pushIndexes (TableSchema.indexes table)
              (push sqlStatements (createTable table)).

(** The array [sqlStatements] when the outer loop is over. *)
Definition statements (schema : list TableSchema.t) : list jsstring :=
  fold_left renderTable schema [].

(** [generateSQL]: the promise it returns is always fulfilled, with this
    text. *)
Definition generateSQL (schema : list TableSchema.t) : jsstring :=
  join [LF; LF] (statements schema).

(** The same two loops as a big-step evaluation relation, one rule per
    way an iteration can go. *)
Inductive IndexLoop : list jsstring -> list jsstring -> list jsstring -> Prop :=
| IndexLoop_done : forall acc, IndexLoop [] acc acc
| IndexLoop_step : forall index rest acc out,
    IndexLoop rest (push acc index) out ->
    IndexLoop (index :: rest) acc out.

Inductive TableLoop
  : list TableSchema.t -> list jsstring -> list jsstring -> Prop :=
| TableLoop_done : forall acc, TableLoop [] acc acc
| TableLoop_step : forall table rest acc acc' out,
    IndexLoop (TableSchema.indexes table) (push acc (createTable table)) acc' ->
    TableLoop rest acc' out ->
    TableLoop (table :: rest) acc out.

Definition Emits (schema : list TableSchema.t) (sql : jsstring) : Prop :=
  exists stmts, TableLoop schema [] stmts /\ sql = join [LF; LF] stmts.

End Render.

(** The constant [mockSchema]. *)
Module Mock.

Local Open Scope string_scope.

Definition field (n ty : string) (cs : list string) (d : string)
  : SchemaField.t :=
  SchemaField.mk (lit n) (lit ty) (map lit cs) (lit d).

Definition users : TableSchema.t :=
  TableSchema.mk (lit "users")
    [ field "id" "SERIAL" ["PRIMARY KEY"]
            "Unique identifier for the user";
      field "username" "VARCHAR(50)" ["NOT NULL"; "UNIQUE"]
            "User's username";
      field "email" "VARCHAR(255)" ["NOT NULL"; "UNIQUE"]
            "User's email";
      field "created_at" "TIMESTAMP" ["NOT NULL"; "DEFAULT CURRENT_TIMESTAMP"]
            "Creation timestamp" ]
    []
    [ lit "CREATE INDEX idx_users_username ON users(username);" ].

Definition posts : TableSchema.t :=
  TableSchema.mk (lit "posts")
    [ field "id" "SERIAL" ["PRIMARY KEY"]
            "Unique identifier for the post";
      field "title" "VARCHAR(255)" ["NOT NULL"] "Post title";
      field "content" "TEXT" ["NOT NULL"] "Post content";
      field "user_id" "INTEGER" ["NOT NULL"; "REFERENCES users(id)"]
            "Author ID";
      field "created_at" "TIMESTAMP" ["NOT NULL"; "DEFAULT CURRENT_TIMESTAMP"]
            "Creation timestamp" ]
    [ lit "FOREIGN KEY (user_id) REFERENCES users(id)" ]
    [ lit "CREATE INDEX idx_posts_user_id ON posts(user_id);" ].

Definition mockSchema : list TableSchema.t := [users; posts].

End Mock.

(* ================================================================== *)
(** * From the completion text to a schema *)
(* ================================================================== *)

Module Generate.

(** The object a [TableSchema[]] literal evaluates to. *)
Definition strings (l : list jsstring) : value := JArray (map JString l).

Definition fieldValue (f : SchemaField.t) : value :=
  JObject [ (lit "name", JString (SchemaField.name f));
            (lit "type", JString (SchemaField.type f));
            (lit "constraints", strings (SchemaField.constraints f));
            (lit "description", JString (SchemaField.description f)) ].

Definition tableValue (t : TableSchema.t) : value :=
  JObject [ (lit "name", JString (TableSchema.name t));
            (lit "fields", JArray (map fieldValue (TableSchema.fields t)));
            (lit "relationships", strings (TableSchema.relationships t));
            (lit "indexes", strings (TableSchema.indexes t)) ].

Definition schemaValue (schema : list TableSchema.t) : value :=
  JArray (map tableValue schema).

(** The other way round: a value seen at the type [TableSchema[]], when
    it has that shape. *)
Fixpoint all {A B : Type} (f : A -> option B) (l : list A)
  : option (list B) :=
  match l with
  | [] => Some []
  | a :: l' =>
    match f a, all f l' with
    | Some b, Some bs => Some (b :: bs)
    | _, _ => None
    end
  end.

Definition asString (v : value) : option jsstring :=
  match v with JString s => Some s | _ => None end.

Definition asStrings (v : value) : option (list jsstring) :=
  match v with JArray l => all asString l | _ => None end.

Definition prop {A : Type} (k : string) (as_ : value -> option A)
    (ms : list (jsstring * value)) : option A :=
  match lookup (lit k) ms with
  | Some v => as_ v
  | None => None
  end.

Definition asField (v : value) : option SchemaField.t :=
  match v with
  | JObject ms =>
    match prop "name" asString ms, prop "type" asString ms,
          prop "constraints" asStrings ms, prop "description" asString ms with
    | Some n, Some ty, Some cs, Some d => Some (SchemaField.mk n ty cs d)
    | _, _, _, _ => None
    end
  | _ => None
  end.

Definition asFields (v : value) : option (list SchemaField.t) :=
  match v with JArray l => all asField l | _ => None end.

Definition asTable (v : value) : option TableSchema.t :=
  match v with
  | JObject ms =>
    match prop "name" asString ms, prop "fields" asFields ms,
          prop "relationships" asStrings ms, prop "indexes" asStrings ms with
    | Some n, Some fs, Some rs, Some ixs => Some (TableSchema.mk n fs rs ixs)
    | _, _, _, _ => None
    end
  | _ => None
  end.

Definition asSchema (v : value) : option (list TableSchema.t) :=
  match v with JArray l => all asTable l | _ => None end.

(** ** Regular expressions of the clean-up *)

(** The class [\s]: white space and line terminators. *)
Definition isSpace (c : N) : bool :=
  ((9 <=? c) && (c <=? 13) || (c =? 32) || (c =? 160) || (c =? 5760)
   || (8192 <=? c) && (c <=? 8202) || (c =? 8232) || (c =? 8233)
   || (c =? 8239) || (c =? 8287) || (c =? 12288) || (c =? 65279))%N.

(** What [.] does not match. *)
Definition isLineTerminator (c : N) : bool :=
  ((c =? 10) || (c =? 13) || (c =? 8232) || (c =? 8233))%N.

Definition isLower (c : N) : bool := ((97 <=? c) && (c <=? 122))%N.

(** [s.replace(/p/g, by)]: a pattern gives the length of its match at the
    head of the text, if any; after a match the scan resumes behind it.
    None of the patterns below matches the empty string. *)
Fixpoint replaceAll (pattern : jsstring -> option nat) (by_ : jsstring)
    (skip : nat) (s : jsstring) : jsstring :=
  match s with
  | [] => []
  | c :: s' =>
    match skip with
    | S k => replaceAll pattern by_ k s'
    | O =>
      match pattern s with
      | Some (S k) => by_ ++ replaceAll pattern by_ k s'
      | _ => c :: replaceAll pattern by_ O s'
      end
    end
  end.

Fixpoint run (p : N -> bool) (s : jsstring) : nat :=
  match s with
  | c :: s' => if p c then S (run p s') else O
  | [] => O
  end.

(** The pattern of two alternatives that removes code fences: three
    backquotes, lower-case letters and a line feed; or a line feed and
    three backquotes.  The first alternative is tried first. *)
Definition fence (s : jsstring) : option nat :=
  match s with
  | 96%N :: 96%N :: 96%N :: r =>
    let n := run isLower r in
    match skipn n r with
    | 10%N :: _ => Some (3 + n + 1)
    | _ => None
    end
  | 10%N :: 96%N :: 96%N :: 96%N :: _ => Some 4
  | _ => None
  end.

(** [/\n/]. *)
Definition lineFeed (s : jsstring) : option nat :=
  match s with
  | 10%N :: _ => Some 1
  | _ => None
  end.

(** [/\s+/]. *)
Definition spaces (s : jsstring) : option nat :=
  match run isSpace s with
  | O => None
  | n => Some n
  end.

Fixpoint trimStart (s : jsstring) : jsstring :=
  match s with
  | c :: s' => if isSpace c then trimStart s' else s
  | [] => []
  end.

(** [s.trim()]. *)
Definition trim (s : jsstring) : jsstring :=
  rev (trimStart (rev (trimStart s))).

Definition cleanedResponse (response : jsstring) : jsstring :=
  trim (replaceAll spaces (lit " ") 0
         (replaceAll lineFeed [] 0
           (replaceAll fence [] 0 response))).

(** ** The pattern that finds the object *)

(** The longest prefix of the text that ends with [c]. *)
Fixpoint uptoLast (c : N) (s : jsstring) : option jsstring :=
  match s with
  | [] => None
  | x :: s' =>
    match uptoLast c s' with
    | Some p => Some (x :: p)
    | None => if (x =? c)%N then Some [x] else None
    end
  end.

(** [s.match(/\{.*\}/)], its element 0: from the leftmost opening brace
    that a closing brace follows before the line ends, up to the last such
    closing brace. *)
Fixpoint jsonMatch (s : jsstring) : option jsstring :=
  match s with
  | [] => None
  | c :: s' =>
    if (c =? 123)%N then
      match uptoLast 125 (firstn (run (fun x => negb (isLineTerminator x)) s') s') with
      | Some p => Some (c :: p)
      | None => jsonMatch s'
      end
    else jsonMatch s'
  end.

(** ** [generateSchema] *)

(** [schema.tables]: reading a property of [null] throws; of anything that
    is not an object built from braces it gives [undefined]. *)
Definition tables (schema : value) : option (option value) :=
  match schema with
  | JNull => None
  | JObject ms => Some (lookup (lit "tables") ms)
  | _ => Some None
  end.

(** What can reach the [catch] clause: the error the script throws when
    the pattern finds nothing, the [SyntaxError] of [JSON.parse], the
    [TypeError] of reading a property of [null]. *)
Inductive caught : Type :=
| NoJsonObject
| SyntaxError
| TypeError.

(** The body of the [try] block: what it returns, or what it throws. *)
Definition tryBlock (response : jsstring) : option value + caught :=
  match jsonMatch (cleanedResponse response) with
  | None => inr NoJsonObject
  | Some jsonStr =>
    match parse jsonStr with
    | None => inr SyntaxError
    | Some schema =>
      match tables schema with
      | None => inr TypeError
      | Some result => inl result
      end
    end
  end.

(** [generateSchema], from the point where the completion has arrived:
    [response] is [completion.choices[0]?.message?.content], [None] when it
    is [undefined] or [null].  The value returned is [None] for
    [undefined]. *)
Definition generateSchema (response : option jsstring)
  : settled (option value) :=
  match response with
  | None | Some [] => Rejected (ErrorInstance (lit "No response from Groq"))
  | Some text =>
    match tryBlock text with
    | inl result => Fulfilled result
    | inr _ => Fulfilled (Some (schemaValue Mock.mockSchema))
    end
  end.

(** [generateSchema] has returned [mockSchema]. *)
Definition fallback : settled (option value) :=
  Fulfilled (Some (schemaValue Mock.mockSchema)).

(** [main], from the completion on: the schema is rendered and the text
    saved to [samples/blog-schema.sql]; a rejection is logged.  When
    [generateSchema] returns something that is not a [TableSchema[]],
    [generateSQL] runs outside its declared type (it throws at once on
    [undefined]; otherwise it throws or prints the values through
    JavaScript's conversions), which is not modelled. *)
Inductive mainResult : Type :=
| Saved (sql : jsstring)
| Failed (e : thrown)
| Untyped (schema : option value).

Definition main (response : option jsstring) : mainResult :=
  match generateSchema response with
  | Rejected e => Failed e
  | Fulfilled None => Untyped None
  | Fulfilled (Some v) =>
    match asSchema v with
    | Some schema => Saved (Render.generateSQL schema)
    | None => Untyped (Some v)
    end
  end.

End Generate.

(* ================================================================== *)
(** * The benchmark harness *)
(* ================================================================== *)

Module Benchmark.

Record BenchmarkResult : Type := mkResult {
  database : jsstring;
  operation : jsstring;
  duration : float;
  latency : float;
  success : bool;
  error : option jsstring  (* [None]: the property is absent *)
}.

(** [n] as a JavaScript number, for the length of an array (which is
    below 2^32, where the conversion is exact). *)
Definition number (n : nat) : float :=
  PrimFloat.of_uint63 (Uint63.of_Z (Z.of_nat n)).

(** The backend and the operation of an entry. *)
Definition label (result : BenchmarkResult) : jsstring * jsstring :=
  (database result, operation result).

Section Harness.

(** Everything outside the process: the databases, the network, the
    clock.  [dateNow] is [Date.now()]. *)
Variable World : Type.
Variable dateNow : World -> float * World.

(** A zero-argument asynchronous function, awaited: how its promise
    settles (its value is not used) and what it did to the world. *)
Definition Action : Type := World -> settled unit * World.

(** A method of [DatabaseBenchmark], awaited: it reads and extends
    [this.results] and acts on the world. *)
Definition Async (A : Type) : Type :=
  list BenchmarkResult -> World -> settled A * list BenchmarkResult * World.

(** [await m; k]: a rejection of [m] is thrown at the [await] and ends
    the calling method. *)
Definition andThen {A B : Type} (m : Async A) (k : Async B) : Async B :=
  fun results w =>
    match m results w with
    | (Fulfilled _, results', w') => k results' w'
    | (Rejected e, results', w') => (Rejected e, results', w')
    end.

Definition measureOperation (database operation : jsstring) (fn : Action)
  : Async unit :=
  fun results w =>
    let (start, w1) := dateNow w in
    match fn w1 with
    | (Fulfilled _, w2) =>
      let (now, w3) := dateNow w2 in
      let duration := PrimFloat.sub now start in
      (Fulfilled tt,
       results ++ [ mkResult database operation duration duration true None ],
       w3)
    | (Rejected error, w2) =>
      let (now, w3) := dateNow w2 in
      (Fulfilled tt,
       results ++ [ mkResult database operation (PrimFloat.sub now start)
                      0%float false
                      (Some match error with
                            | ErrorInstance message => message
                            | NotAnError _ => lit "Unknown error"
                            end) ],
       w3)
    end.

(** Any sequence of timer invocations, each awaited before the next. *)
Definition Invocation : Type := (jsstring * jsstring * Action)%type.

Fixpoint invokeAll (calls : list Invocation) : Async unit :=
  match calls with
  | [] => fun results w => (Fulfilled tt, results, w)
  | (database, operation, fn) :: rest =>
    andThen (measureOperation database operation fn) (invokeAll rest)
  end.

(** A method that is fulfilled and appends entries with these labels. *)
Definition Appends (m : Async unit)
    (labels : list (jsstring * jsstring)) : Prop :=
  forall results w, exists added w',
    m results w = (Fulfilled tt, results ++ added, w')
    /\ map label added = labels.

(** ** The closures handed to the timer *)

(** [await a; b] inside a closure: a rejection of [a] ends the closure. *)
Definition thenDo (a b : Action) : Action :=
  fun w =>
    match a w with
    | (Fulfilled _, w') => b w'
    | (Rejected e, w') => (Rejected e, w')
    end.

(** [for (const item of items) { await f(item); }] *)
Fixpoint forAwait {A : Type} (f : A -> Action) (items : list A) : Action :=
  match items with
  | [] => fun w => (Fulfilled tt, w)
  | item :: rest => thenDo (f item) (forAwait f rest)
  end.

(** A Supabase call is fulfilled with an object whose [error] property
    tells whether it failed. *)
Definition Reply : Type := World -> settled (option thrown) * World.

(** [const { error } = await call; if (error) throw error;] *)
Definition throwIfError (call : Reply) : Action :=
  fun w =>
    match call w with
    | (Fulfilled None, w') => (Fulfilled tt, w')
    | (Fulfilled (Some error), w') => (Rejected error, w')
    | (Rejected e, w') => (Rejected e, w')
    end.

(** [Array.from({ length: n }, (_, i) => f(i))], for a callback that reads
    the world ([Math.random], [new Date]). *)
Fixpoint arrayFrom {A : Type} (f : nat -> World -> A * World)
    (indices : list nat) (w : World) : list A * World :=
  match indices with
  | [] => ([], w)
  | i :: rest =>
    let (x, w1) := f i w in
    let (xs, w2) := arrayFrom f rest w1 in
    (x :: xs, w2)
  end.

(** The calls into the client libraries, which are not part of the
    harness: each is a transformation of the world that settles.  [Row] is
    a row of test data. *)
Variable Row : Type.

Record Clients : Type := {
  makeRow : nat -> World -> Row * World;
  neonInsert : Row -> Action;            (* sql`INSERT INTO posts ...` *)
  supabaseInsert : list Row -> Reply;    (* from('posts').insert(testData) *)
  mongoInsertMany : list Row -> Action;  (* collection.insertMany(testData) *)
  neonSelect : Action;                   (* sql`SELECT * ... LIMIT 10` *)
  supabaseSelect : Reply;                (* select('*').eq(...).limit(10) *)
  mongoFind : Action;                    (* find(...).limit(10).toArray() *)
  neonJoin : Action;                     (* the join over four tables *)
  supabaseJoin : Reply;                  (* the embedded select *)
  mongoAggregate : Action;               (* aggregate([...]).toArray() *)
  neonColdSelect : Action;               (* neon(config), then SELECT 1 *)
  mongoColdConnect : Action;             (* new MongoClient, connect() *)
  mongoColdFindOne : Action;             (* findOne on the new client *)
  mongoColdClose : Action                (* close() *)
}.

Variable clients : Clients.

Definition runWriteTest : Async unit :=
  fun results w =>
    let (testData, w0) := arrayFrom (makeRow clients) (seq 0 (100 * 100)) w in
    andThen
      (measureOperation (lit "Neon") (lit "Write 10k rows")
         (forAwait (neonInsert clients) testData))
   (andThen
      (measureOperation (lit "Supabase") (lit "Write 10k rows")
         (throwIfError (supabaseInsert clients testData)))
      (measureOperation (lit "MongoDB") (lit "Write 10k rows")
         (mongoInsertMany clients testData)))
      results w0.

Definition runReadTest : Async unit :=
  andThen (measureOperation (lit "Neon") (lit "Simple Query")
             (neonSelect clients))
 (andThen (measureOperation (lit "Supabase") (lit "Simple Query")
             (throwIfError (supabaseSelect clients)))
 (andThen (measureOperation (lit "MongoDB") (lit "Simple Query")
             (mongoFind clients))
 (andThen (measureOperation (lit "Neon") (lit "Complex Query")
             (neonJoin clients))
 (andThen (measureOperation (lit "Supabase") (lit "Complex Query")
             (throwIfError (supabaseJoin clients)))
          (measureOperation (lit "MongoDB") (lit "Complex Query")
             (mongoAggregate clients)))))).

Definition runColdStartTest : Async unit :=
  andThen (measureOperation (lit "Neon") (lit "Cold Start")
             (neonColdSelect clients))
          (measureOperation (lit "MongoDB") (lit "Cold Start")
             (thenDo (mongoColdConnect clients)
                (thenDo (mongoColdFindOne clients)
                        (mongoColdClose clients)))).

(** The three runners as [main] awaits them. *)
Definition runBenchmarks : Async unit :=
  andThen runWriteTest (andThen runReadTest runColdStartTest).

End Harness.

(** ** [printResults] *)

(** [`${result.database}-${result.operation}`] *)
Definition key (result : BenchmarkResult) : jsstring :=
  database result ++ lit "-" ++ operation result.

(** The accumulator object of the first [reduce]: its own properties, in
    the order they were created.  Every key holds a hyphen, so none is an
    inherited property of the empty object it starts from, and none is an
    array index, which [Object.entries] would list first. *)
Definition Groups : Type := list (jsstring * list BenchmarkResult).

(** [if (!acc[key]) acc[key] = []; acc[key].push(result)] *)
Fixpoint pushTo (k : jsstring) (result : BenchmarkResult) (acc : Groups)
  : Groups :=
  match acc with
  | [] => [(k, [result])]
  | (k', rs) :: acc' =>
    if Js.eqb k' k then (k', rs ++ [result]) :: acc'
    else (k', rs) :: pushTo k result acc'
  end.

Definition groupedResults (results : list BenchmarkResult) : Groups :=
  fold_left (fun acc result => pushTo (key result) result acc) results [].

(** What is printed for a group: the numbers are those handed to
    [toFixed(2)]; [errors] is the array printed when the rate is below
    100, each element the [error] property of a failed entry. *)
Record Summary : Type := mkSummary {
  group : jsstring;
  avgDuration : float;
  successRate : float;
  errors : option (list (option jsstring))
}.

Definition summarize (entry : jsstring * list BenchmarkResult) : Summary :=
  let (k, results) := entry in
  let avgDuration :=
    PrimFloat.div
      (fold_left (fun sum r => PrimFloat.add sum (duration r)) results 0%float)
      (number (length results)) in
  let successRate :=
    PrimFloat.mul
      (PrimFloat.div (number (length (filter success results)))
                     (number (length results)))
      100%float in
  mkSummary k avgDuration successRate
    (if PrimFloat.ltb successRate 100%float
     then Some (map error (filter (fun r => negb (success r)) results))
     else None).

Definition printResults (results : list BenchmarkResult) : list Summary :=
  map summarize (groupedResults results).

(** ** The words of the specification *)

(** The entries of a sequence that are filed under the key [k]. *)
Definition entriesOf (k : jsstring) (results : list BenchmarkResult)
  : list BenchmarkResult :=
  filter (fun result => Js.eqb (key result) k) results.

Definition seen (k : jsstring) (ks : list jsstring) : bool :=
  existsb (Js.eqb k) ks.

(** The distinct keys of a sequence, in the order of their first
    occurrence. *)
Definition firstSeen (ks : list jsstring) : list jsstring :=
  fold_left (fun acc k => if seen k acc then acc else acc ++ [k]) ks [].

(** The arithmetic mean of a sequence of numbers: their sum, taken from
    left to right, over their count. *)
Definition mean (xs : list float) : float :=
  PrimFloat.div (fold_left PrimFloat.add xs 0%float) (number (length xs)).

(** [k] out of [n], as a percentage: (k / n) * 100. *)
Definition percentage (k n : nat) : float :=
  PrimFloat.mul (PrimFloat.div (number k) (number n)) 100%float.

(** ** A world to run the harness in: nothing but a clock. *)

Definition Clock : Type := float.

Definition readClock : Clock -> float * Clock := fun t => (t, t).

(** An action that takes [ms] milliseconds and then settles as [s]. *)
Definition after (ms : float) (s : settled unit) : Action Clock :=
  fun t => (s, PrimFloat.add t ms).

End Benchmark.

Import Generate.

(** The text that rendering the fallback schema gives. *)
Definition usersStatement : jsstring := lit "
CREATE TABLE users (
  id SERIAL PRIMARY KEY,
  username VARCHAR(50) NOT NULL UNIQUE,
  email VARCHAR(255) NOT NULL UNIQUE,
  created_at TIMESTAMP NOT NULL DEFAULT CURRENT_TIMESTAMP
);".

Definition postsStatement : jsstring := lit "
CREATE TABLE posts (
  id SERIAL PRIMARY KEY,
  title VARCHAR(255) NOT NULL,
  content TEXT NOT NULL,
  user_id INTEGER NOT NULL REFERENCES users(id),
  created_at TIMESTAMP NOT NULL DEFAULT CURRENT_TIMESTAMP
);".

Definition usersIndex : jsstring :=
  lit "CREATE INDEX idx_users_username ON users(username);".

Definition postsIndex : jsstring :=
  lit "CREATE INDEX idx_posts_user_id ON posts(user_id);".

(* ================================================================== *)
(** * Words for the properties of the clean-up *)
(* ================================================================== *)

Module Tidy.

(** Every white-space character of the text is the space U+0020. *)
Definition onlySpaces (s : jsstring) : bool :=
  forallb (fun c => negb (isSpace c) || (c =? 32)%N) s.

(** No two white-space characters of the text are adjacent. *)
Fixpoint singleSpaced (s : jsstring) : bool :=
  match s with
  | a :: (b :: _) as s' => negb (isSpace a && isSpace b) && singleSpaced s'
  | _ => true
  end.

(** The text does not start with white space. *)
Definition headNonSpace (s : jsstring) : bool :=
  match s with
  | c :: _ => negb (isSpace c)
  | [] => true
  end.

(** What the clean-up leaves: single spaces and no other white space, none
    of it at either end. *)
Definition tidy (s : jsstring) : bool :=
  onlySpaces s && singleSpaced s && headNonSpace s && headNonSpace (rev s).

End Tidy.

Import Tidy.

(* ================================================================== *)
(** * The JSON text of a value *)
(* ================================================================== *)

Module Stringify.

Definition hexChar (n : N) : N :=
  if (n <? 10)%N then (48 + n)%N else (87 + n)%N.

(** A character inside a string literal, as [JSON.stringify] writes it: the
    double quote and the backslash behind a backslash, the control
    characters as their short escape or as a backslash, [u] and four
    hexadecimal digits, every other character as it is. *)
Definition quoteChar (c : N) : jsstring :=
  if (c =? 34)%N then [92; 34]%N
  else if (c =? 92)%N then [92; 92]%N
  else if (c =? 8)%N then [92; 98]%N
  else if (c =? 12)%N then [92; 102]%N
  else if (c =? 10)%N then [92; 110]%N
  else if (c =? 13)%N then [92; 114]%N
  else if (c =? 9)%N then [92; 116]%N
  else if (c <? 32)%N then
    [92; 117; 48; 48; hexChar (c / 16); hexChar (c mod 16)]%N
  else [c].

Definition quote (s : jsstring) : jsstring :=
  34%N :: flat_map quoteChar s ++ [34%N].

(** The text of a value without any white space, properties in the order
    of the object (44 is the comma, 58 the colon). *)
Fixpoint stringify (v : value) : jsstring :=
  match v with
  | JNull => lit "null"
  | JBool true => lit "true"
  | JBool false => lit "false"
  | JNumber lexeme => lexeme
  | JString s => quote s
  | JArray l => 91%N :: join [44%N] (map stringify l) ++ [93%N]
  | JObject ms =>
    123%N
      :: join [44%N]
           (map (fun kv => quote (fst kv) ++ 58%N :: stringify (snd kv)) ms)
      ++ [125%N]
  end.

Fixpoint distinct (ks : list jsstring) : bool :=
  match ks with
  | [] => true
  | k :: ks' => negb (existsb (Js.eqb k) ks') && distinct ks'
  end.

(** A value without numbers, in which no object has a key twice. *)
Fixpoint plain (v : value) : bool :=
  match v with
  | JNumber _ => false
  | JArray l => forallb plain l
  | JObject ms =>
    distinct (map fst ms) && forallb (fun kv => plain (snd kv)) ms
  | _ => true
  end.

Fixpoint size (v : value) : nat :=
  match v with
  | JArray l => S (list_sum (map size l))
  | JObject ms => S (list_sum (map (fun kv => size (snd kv)) ms))
  | _ => 1
  end.

(** The text [t] starts a value, and whatever follows it, the parser reads
    [v] from it and stops behind it. *)
Definition Reads (t : jsstring) (v : value) : Prop :=
  (exists c t', t = c :: t' /\ isWs c = false /\ c <> 93%N /\ c <> 125%N)
  /\ forall fuel rest,
       2 * length (t ++ rest) < fuel -> value_ fuel (t ++ rest) = Parsed v rest.

(** The completion a model gives when it obeys the prompt: the text of an
    object whose [tables] property is the schema. *)
Definition completionOf (schema : list TableSchema.t) : jsstring :=
  stringify (JObject [(lit "tables", schemaValue schema)]).

(** A text inside a code fence with a language tag, as models often send
    it. *)
Definition fenced (tag text : jsstring) : jsstring :=
  lit "```" ++ tag ++ [LF] ++ text ++ [LF] ++ lit "```".

End Stringify.

Import Stringify.

(* ================================================================== *)
(** * Words for the properties of the renderer *)
(* ================================================================== *)

Module RenderWords.

(** A schema with what the renderer does not read left blank: the
    descriptions of the fields and the relationships of the tables. *)
Definition bareField (f : SchemaField.t) : SchemaField.t :=
  SchemaField.mk (SchemaField.name f) (SchemaField.type f)
                 (SchemaField.constraints f) [].

Definition bareTable (t : TableSchema.t) : TableSchema.t :=
  TableSchema.mk (TableSchema.name t)
                 (map bareField (TableSchema.fields t)) []
                 (TableSchema.indexes t).

(** A statement that opens as the ones pushed for a table do. *)
Definition isCreateTable (statement : jsstring) : bool :=
  Js.startsWith (LF :: lit "CREATE TABLE ") statement.

End RenderWords.

Import RenderWords.

(* ================================================================== *)
(** * The rest of the benchmark script *)
(* ================================================================== *)

Module BenchmarkMain.

Import Benchmark.

(** What the timer guarantees of an entry: a success has no error message
    and its latency is its duration; a failure has a message and latency
    0. *)
Definition wellFormed (r : BenchmarkResult) : Prop :=
  if success r
  then error r = None /\ latency r = duration r
  else error r <> None /\ latency r = 0%float.

(** The line printed for a pair that was measured once. *)
Definition lineOf (r : BenchmarkResult) : Summary :=
  mkSummary (key r) (mean [duration r])
            (if success r then 100%float else 0%float)
            (if success r then None else Some [error r]).

Section Main.

Variable World : Type.
Variable dateNow : World -> float * World.
Variable Row : Type.
Variable clients : Clients World Row.

(** The connection [main] opens and closes around the run. *)
Variable connect : Action World.
Variable close : Action World.

(** [main], once the three clients exist: what [printResults] printed, if
    it was reached, how the promise of [main] settles, and the world it
    leaves.  An error of the [try] block is logged by the [catch] clause;
    the [finally] clause awaits [close] in every case, and a rejection
    there is the rejection of [main]. *)
Definition main (w : World) : option (list Summary) * settled unit * World :=
  match connect w with
  | (Rejected _, w1) =>
    let (closed, w2) := close w1 in (None, closed, w2)
  | (Fulfilled _, w1) =>
    match runBenchmarks dateNow clients [] w1 with
    | (Fulfilled _, results, w2) =>
      let (closed, w3) := close w2 in
      (Some (printResults results), closed, w3)
    | (Rejected _, _, w2) =>
      let (closed, w3) := close w2 in (None, closed, w3)
    end
  end.

End Main.

(** The eleven pairs of a run, in the order they are measured. *)
Definition runLabels : list (jsstring * jsstring) :=
  [ (lit "Neon", lit "Write 10k rows");
    (lit "Supabase", lit "Write 10k rows");
    (lit "MongoDB", lit "Write 10k rows");
    (lit "Neon", lit "Simple Query");
    (lit "Supabase", lit "Simple Query");
    (lit "MongoDB", lit "Simple Query");
    (lit "Neon", lit "Complex Query");
    (lit "Supabase", lit "Complex Query");
    (lit "MongoDB", lit "Complex Query");
    (lit "Neon", lit "Cold Start");
    (lit "MongoDB", lit "Cold Start") ].

(** A client library for the clock world: every call takes one
    millisecond; the calls to MongoDB fail when [mongoDown] is set. *)
Definition quiet : Action Clock := after 1 (Fulfilled tt).

Definition mongo (mongoDown : bool) : Action Clock :=
  if mongoDown
  then after 1 (Rejected (ErrorInstance (lit "connection refused")))
  else quiet.

Definition testClients (mongoDown : bool) : Clients Clock nat :=
  {| makeRow := fun i t => (i, t);
     neonInsert := fun _ => quiet;
     supabaseInsert := fun _ t => (Fulfilled None, PrimFloat.add t 1);
     mongoInsertMany := fun _ => mongo mongoDown;
     neonSelect := quiet;
     supabaseSelect := fun t => (Fulfilled None, PrimFloat.add t 1);
     mongoFind := mongo mongoDown;
     neonJoin := quiet;
     supabaseJoin := fun t => (Fulfilled None, PrimFloat.add t 1);
     mongoAggregate := mongo mongoDown;
     neonColdSelect := quiet;
     mongoColdConnect := mongo mongoDown;
     mongoColdFindOne := quiet;
     mongoColdClose := quiet |}.

End BenchmarkMain.

(* ================================================================== *)
(** * The HTTP worker *)
(* ================================================================== *)

Module Api.

(** ** [parseInt] with one argument *)

(** The integer as a JavaScript number: the nearest binary64 value. *)
Definition ofZ (z : Z) : float :=
  SF2Prim (binary_normalize prec emax z 0 false).

(** The value of a digit in the radix, when it is one. *)
Definition digitValue (radix c : N) : option N :=
  let v :=
    if isDigit c then Some (c - 48)%N
    else if ((97 <=? c) && (c <=? 122))%N then Some (c - 87)%N
    else if ((65 <=? c) && (c <=? 90))%N then Some (c - 55)%N
    else None in
  match v with
  | Some d => if (d <? radix)%N then Some d else None
  | None => None
  end.

(** The value of the longest prefix of digits, [None] when it is empty. *)
Fixpoint digitsValue (radix : N) (s : jsstring) (acc : option Z) : option Z :=
  match s with
  | [] => acc
  | c :: s' =>
    match digitValue radix c with
    | Some d =>
      digitsValue radix s'
        (Some (match acc with
               | Some a => a * Z.of_N radix + Z.of_N d
               | None => Z.of_N d
               end)%Z)
    | None => acc
    end
  end.

Definition signOf (s : jsstring) : bool * jsstring :=
  match expect 45 s, expect 43 s with
  | Some r, _ => (true, r)
  | None, Some r => (false, r)
  | None, None => (false, s)
  end.

Definition radixOf (s : jsstring) : N * jsstring :=
  match expect 48 s with
  | Some r =>
    match expect 120 r, expect 88 r with
    | Some r', _ => (16%N, r')
    | None, Some r' => (16%N, r')
    | None, None => (10%N, s)
    end
  | None => (10%N, s)
  end.

(** [parseInt(s)]: leading white space, a sign, the prefix [0x] or [0X]
    for radix 16, then as many digits as there are; [NaN] without a
    digit.  (For a numeral of more than twenty digits an engine may round
    the digits behind the twentieth before it converts; here the integer
    is converted as it is.) *)
Definition parseInt (s : jsstring) : float :=
  let (negative, s1) := signOf (trimStart s) in
  let (radix, s2) := radixOf s1 in
  match digitsValue radix s2 None with
  | None => nan
  | Some 0%Z => if negative then (-0)%float else 0%float
  | Some z => ofZ (if negative then (- z)%Z else z)
  end.

(** ** Requests and responses *)

(** What the handler reads of a request: [url.pathname], the method, and
    the decoded pairs of [url.searchParams], in their order. *)
Record Request : Type := mkRequest {
  path : jsstring;
  method : jsstring;
  searchParams : list (jsstring * jsstring)
}.

(** [url.searchParams.get(name) || fallback]: the first value under the
    name, unless there is none or it is empty. *)
Fixpoint get (name : jsstring) (params : list (jsstring * jsstring))
  : option jsstring :=
  match params with
  | [] => None
  | (k, v) :: rest => if Js.eqb k name then Some v else get name rest
  end.

Definition getOr (name : string) (fallback : string)
    (params : list (jsstring * jsstring)) : jsstring :=
  match get (lit name) params with
  | None | Some [] => lit fallback
  | Some v => v
  end.

(** The body handed to [new Response]: a text, or [JSON.stringify] of a
    value ([None] for [undefined]). *)
Inductive Body : Type :=
| Text (text : jsstring)
| Json (v : option value).

(** A response: its status, its body, and the headers given to the
    constructor. *)
Record Response : Type := mkResponse {
  status : N;
  body : Body;
  headers : list (jsstring * jsstring)
}.

Definition jsonHeaders : list (jsstring * jsstring) :=
  [(lit "Content-Type", lit "application/json")].

Definition notFound : Response := mkResponse 404 (Text (lit "Not Found")) [].

Definition methodNotAllowed : Response :=
  mkResponse 405 (Text (lit "Method Not Allowed")) [].

Definition internalError : Response :=
  mkResponse 500
    (Json (Some (JObject [(lit "error", JString (lit "Internal Server Error"))])))
    jsonHeaders.

(** Reading a property while destructuring: [None] is the [TypeError] for
    [null]. *)
Definition property (name : string) (v : value) : option (option value) :=
  match v with
  | JNull => None
  | JObject ms => Some (lookup (lit name) ms)
  | _ => Some None
  end.

Section Handler.

Variable World : Type.

(** The three queries, with the values put into their templates, and the
    reading of the request body; each settles and changes the world. *)
Record Backend : Type := {
  selectItems : float -> float -> World -> settled (list value) * World;
  insertItem :
    option value -> option value -> World -> settled (list value) * World;
  searchItems : jsstring -> jsstring -> World -> settled (list value) * World;
  requestJson : World -> settled value * World
}.

Variable backend : Backend.

(** [fetch], once [neon] has made the client: the promise it returns is
    always fulfilled, with this response. *)
Definition fetch (request : Request) (w : World) : Response * World :=
  if Js.eqb (path request) (lit "/api/items") then
    if Js.eqb (method request) (lit "GET") then
      let page := parseInt (getOr "page" "1" (searchParams request)) in
      let limit := parseInt (getOr "limit" "10" (searchParams request)) in
      let offset := PrimFloat.mul (PrimFloat.sub page 1) limit in
      match selectItems backend limit offset w with
      | (Fulfilled items, w') =>
        (mkResponse 200 (Json (Some (JArray items))) jsonHeaders, w')
      | (Rejected _, w') => (internalError, w')
      end
    else if Js.eqb (method request) (lit "POST") then
      match requestJson backend w with
      | (Rejected _, w1) => (internalError, w1)
      | (Fulfilled json, w1) =>
        match property "name" json, property "description" json with
        | Some name, Some description =>
          match insertItem backend name description w1 with
          | (Fulfilled result, w2) =>
            (mkResponse 201 (Json (hd_error result)) jsonHeaders, w2)
          | (Rejected _, w2) => (internalError, w2)
          end
        | _, _ => (internalError, w1)
        end
      end
    else (methodNotAllowed, w)
  else if Js.eqb (path request) (lit "/api/items/search") then
    if Js.eqb (method request) (lit "GET") then
      let query :=
        match get (lit "q") (searchParams request) with
        | Some q => q
        | None => []
        end in
      let pattern := lit "%" ++ query ++ lit "%" in
      match searchItems backend pattern pattern w with
      | (Fulfilled items, w') =>
        (mkResponse 200 (Json (Some (JArray items))) jsonHeaders, w')
      | (Rejected _, w') => (internalError, w')
      end
    else (methodNotAllowed, w)
  else (notFound, w).

End Handler.

(** A backend for the examples: the world counts the calls made; when
    [down] is set every query is rejected; the posted body is [posted]. *)
Definition testBackend (down : bool) (posted : value) : Backend nat :=
  let answer (rows : list value) (n : nat) : settled (list value) * nat :=
    if down
    then (Rejected (ErrorInstance (lit "connection refused")), S n)
    else (Fulfilled rows, S n) in
  {| selectItems := fun _ _ => answer [];
     insertItem := fun name _ =>
       answer [JObject [(lit "name", match name with
                                     | Some v => v
                                     | None => JNull
                                     end)]];
     searchItems := fun _ _ => answer [];
     requestJson := fun n => (Fulfilled posted, n) |}.

End Api.

(* ================================================================== *)
(** * Facts about strings *)
(* ================================================================== *)

Lemma eqb_eq (a b : jsstring) : Js.eqb a b = true <-> a = b.
Proof.
  revert b; induction a as [|x a IH]; intros [|y b]; simpl;
    try (split; [discriminate | discriminate]); try tauto.
  rewrite andb_true_iff, N.eqb_eq, IH.
  split; [intros [-> ->]; reflexivity | intros H; injection H; auto].
Qed.

Lemma eqb_refl (a : jsstring) : Js.eqb a a = true.
Proof. apply eqb_eq; reflexivity. Qed.

Lemma eqb_neq (a b : jsstring) : Js.eqb a b = false <-> a <> b.
Proof.
  rewrite <- eqb_eq. destruct (Js.eqb a b); split; congruence.
Qed.

Lemma eqb_sym (a b : jsstring) : Js.eqb a b = Js.eqb b a.
Proof.
  destruct (Js.eqb a b) eqn:E.
  - apply eqb_eq in E; subst; symmetry; apply eqb_refl.
  - symmetry; apply eqb_neq; apply eqb_neq in E; congruence.
Qed.

(* ================================================================== *)
(** * The SQL renderer *)
(* ================================================================== *)

Section RenderFacts.

Import Render.

Lemma pushIndexes_app (indexes acc : list jsstring) :
  pushIndexes indexes acc = acc ++ indexes.
Proof.
  unfold pushIndexes; revert acc.
  induction indexes as [|i indexes IH]; intros acc; simpl.
  - now rewrite app_nil_r.
  - rewrite IH; unfold push; now rewrite <- app_assoc.
Qed.

Lemma renderTable_app (acc : list jsstring) (table : TableSchema.t) :
  renderTable acc table = acc ++ block table.
Proof.
  unfold renderTable, block, push.
  rewrite pushIndexes_app, <- app_assoc; reflexivity.
Qed.

Lemma fold_renderTable (schema : list TableSchema.t) (acc : list jsstring) :
  fold_left renderTable schema acc = acc ++ flat_map block schema.
Proof.
  revert acc; induction schema as [|t schema IH]; intros acc; simpl.
  - now rewrite app_nil_r.
  - rewrite IH, renderTable_app, <- app_assoc; reflexivity.
Qed.

Lemma IndexLoop_fun (indexes acc out : list jsstring) :
  IndexLoop indexes acc out -> out = pushIndexes indexes acc.
Proof. induction 1; simpl; auto. Qed.

Lemma IndexLoop_run (indexes acc : list jsstring) :
  IndexLoop indexes acc (pushIndexes indexes acc).
Proof.
  revert acc; induction indexes as [|i indexes IH]; intros acc.
  - constructor.
  - constructor; apply IH.
Qed.

Lemma TableLoop_fun (schema : list TableSchema.t) (acc out : list jsstring) :
  TableLoop schema acc out -> out = fold_left renderTable schema acc.
Proof.
  induction 1 as [|table rest acc acc' out Hix Hrest IH]; simpl; auto.
  apply IndexLoop_fun in Hix; subst acc'; exact IH.
Qed.

Lemma TableLoop_run (schema : list TableSchema.t) (acc : list jsstring) :
  TableLoop schema acc (fold_left renderTable schema acc).
Proof.
  revert acc; induction schema as [|t schema IH]; intros acc; simpl.
  - constructor.
  - econstructor; [apply IndexLoop_run | apply IH].
Qed.

Lemma Emits_generateSQL (schema : list TableSchema.t) :
  Emits schema (generateSQL schema).
Proof. exists (statements schema); split; [apply TableLoop_run | reflexivity]. Qed.

(** C8: every table contributes its CREATE TABLE statement, whose column
    lines are the table's fields one by one in their order, followed by the
    table's index strings as they are and in their order; the blocks come
    in the order of the tables, and the statements are joined by two line
    feeds.  So every field and every index string is used exactly once. *)
Theorem generateSQL_blocks (schema : list TableSchema.t) :
  statements schema
    = flat_map (fun table => createTable table :: TableSchema.indexes table)
               schema
  /\ generateSQL schema
    = join [LF; LF]
        (flat_map (fun table => createTable table :: TableSchema.indexes table)
                  schema)
  /\ Forall (fun table =>
       createTable table
         = [LF] ++ lit "CREATE TABLE " ++ TableSchema.name table ++ lit " ("
             ++ [LF]
             ++ join (lit "," ++ [LF])
                  (map (fun field =>
                     lit "  " ++ SchemaField.name field ++ lit " "
                       ++ SchemaField.type field ++ lit " "
                       ++ join (lit " ") (SchemaField.constraints field))
                     (TableSchema.fields table))
             ++ [LF] ++ lit ");") schema
  /\ length (statements schema)
    = length schema
      + length (flat_map TableSchema.indexes schema).
Proof.
  assert (E : statements schema = flat_map block schema)
    by (unfold statements; now rewrite fold_renderTable).
  split; [exact E|]. split; [unfold generateSQL; now rewrite E|].
  split; [apply Forall_forall; intros; reflexivity|].
  rewrite E. clear E. induction schema as [|t schema IH]; simpl; auto.
  rewrite !length_app, IH. lia.
Qed.

(** C9: the text [generateSQL] produces is a function of the schema alone:
    two evaluations of its loops on the same schema end with the same text,
    the one [generateSQL] computes. *)
Theorem generateSQL_deterministic (schema : list TableSchema.t)
    (sql1 sql2 : jsstring) :
  Emits schema sql1 -> Emits schema sql2 ->
  sql1 = sql2 /\ sql2 = generateSQL schema.
Proof.
  intros (s1 & H1 & ->) (s2 & H2 & ->).
  apply TableLoop_fun in H1, H2. subst s1 s2. split; reflexivity.
Qed.

Lemma generateSQL_deterministic_witness :
  Emits Mock.mockSchema
    (join [LF; LF] [usersStatement; usersIndex; postsStatement; postsIndex])
  /\ Emits Mock.mockSchema (generateSQL Mock.mockSchema)
  /\ join [LF; LF] [usersStatement; usersIndex; postsStatement; postsIndex]
     = generateSQL Mock.mockSchema.
Proof.
  assert (H1 : Emits Mock.mockSchema
    (join [LF; LF] [usersStatement; usersIndex; postsStatement; postsIndex])).
  { exists [usersStatement; usersIndex; postsStatement; postsIndex].
    split; [|reflexivity].
    repeat (econstructor; try reflexivity). }
  split; [exact H1|].
  split; [apply Emits_generateSQL|].
  exact (proj1 (generateSQL_deterministic H1 (Emits_generateSQL Mock.mockSchema))).
Defined.

End RenderFacts.

(* ================================================================== *)
(** * [JSON.parse] *)
(* ================================================================== *)

Section JsonFacts.

Lemma skipWs_length (s : jsstring) : length (skipWs s) <= length s.
Proof.
  induction s as [|c s IH]; simpl; [lia|].
  destruct (isWs c); simpl; lia.
Qed.

Lemma expect_length (c : N) (s r : jsstring) :
  expect c s = Some r -> length s = S (length r).
Proof.
  destruct s as [|x s]; simpl; [discriminate|].
  destruct (x =? c)%N; [|discriminate].
  intros H; injection H as <-; reflexivity.
Qed.

Lemma stringChars_length (s str r : jsstring) :
  stringChars s = Some (str, r) -> length r < length s.
Proof.
  remember (length s) as n eqn:Hn.
  assert (Hle : length s <= n) by lia. clear Hn.
  revert s str r Hle.
  induction n as [|n IH]; intros [|c s] str r Hle; simpl in *;
    try discriminate; try lia.
  destruct (c =? 34)%N.
  { intros H; injection H as _ <-; lia. }
  destruct (c =? 92)%N.
  - destruct s as [|e s]; [discriminate|].
    destruct (e =? 117)%N.
    + destruct s as [|h1 [|h2 [|h3 [|h4 s]]]]; try discriminate.
      destruct (hex4 h1 h2 h3 h4); [|discriminate].
      destruct (stringChars s) as [[str' r']|] eqn:E; [|discriminate].
      intros H; injection H as _ <-.
      apply IH in E; simpl in *; lia.
    + destruct (unescape e); [|discriminate].
      destruct (stringChars s) as [[str' r']|] eqn:E; [|discriminate].
      intros H; injection H as _ <-.
      apply IH in E; simpl in *; lia.
  - destruct (c <? 32)%N; [discriminate|].
    destruct (stringChars s) as [[str' r']|] eqn:E; [|discriminate].
    intros H; injection H as _ <-.
    apply IH in E; lia.
Qed.

Lemma digits_length (s : jsstring) : length (snd (digits s)) <= length s.
Proof.
  induction s as [|c s IH]; simpl; [lia|].
  destruct (isDigit c); simpl; [|lia].
  destruct (digits s); simpl in *; lia.
Qed.

Lemma intPart_length (s i r : jsstring) :
  intPart s = Some (i, r) -> length r < length s.
Proof.
  destruct s as [|d s]; simpl; [discriminate|].
  destruct (d =? 48)%N.
  { intros H; injection H as _ <-; lia. }
  destruct (isDigit d); [|discriminate].
  pose proof (digits_length s) as L.
  destruct (digits s) as [ds rest]; simpl in L.
  intros H; injection H as _ <-; lia.
Qed.

Lemma fracPart_length (s f r : jsstring) :
  fracPart s = Some (f, r) -> length r <= length s.
Proof.
  unfold fracPart.
  destruct (expect 46 s) as [r0|] eqn:E.
  - apply expect_length in E.
    pose proof (digits_length r0) as L.
    destruct (digits r0) as [[|d ds] rest]; [discriminate|]; simpl in L.
    intros H; injection H as _ <-; lia.
  - intros H; injection H as _ <-; lia.
Qed.

Lemma signPart_length (s : jsstring) :
  length (snd (signPart s)) <= length s.
Proof.
  unfold signPart.
  destruct (expect 43 s) as [r|] eqn:E1.
  - apply expect_length in E1; simpl; lia.
  - destruct (expect 45 s) as [r|] eqn:E2; simpl; [|lia].
    apply expect_length in E2; lia.
Qed.

Lemma expPart_length (s e r : jsstring) :
  expPart s = Some (e, r) -> length r <= length s.
Proof.
  destruct s as [|c s]; simpl.
  { intros H; injection H as _ <-; simpl; lia. }
  destruct ((c =? 101)%N || (c =? 69)%N).
  - pose proof (signPart_length s) as L1.
    destruct (signPart s) as [sign r1]; simpl in L1.
    pose proof (digits_length r1) as L2.
    destruct (digits r1) as [[|d ds] rest]; [discriminate|]; simpl in L2.
    intros H; injection H as _ <-; lia.
  - intros H; injection H as _ <-; simpl; lia.
Qed.

Lemma number_length (s lexeme r : jsstring) :
  number s = Some (lexeme, r) -> length r < length s.
Proof.
  unfold number.
  assert (L0 : forall sign s1,
    (match expect 45 s with Some r => ([45%N], r) | None => ([], s) end)
      = (sign, s1) -> length s1 <= length s).
  { intros sign s1. destruct (expect 45 s) as [r0|] eqn:E.
    - apply expect_length in E. intros H; injection H as _ <-; lia.
    - intros H; injection H as _ <-; lia. }
  destruct (match expect 45 s with Some r => _ | None => _ end)
    as [sign s1].
  specialize (L0 _ _ eq_refl).
  destruct (intPart s1) as [[i s2]|] eqn:E1; [|discriminate].
  destruct (fracPart s2) as [[f s3]|] eqn:E2; [|discriminate].
  destruct (expPart s3) as [[e s4]|] eqn:E3; [|discriminate].
  apply intPart_length in E1. apply fracPart_length in E2.
  apply expPart_length in E3.
  intros H; injection H as _ <-; lia.
Qed.

Lemma skipn_length_le {A : Type} (n : nat) (l : list A) :
  length (skipn n l) <= length l.
Proof. rewrite length_skipn; lia. Qed.

(** With more fuel than twice the length of the text, the descent never
    runs out of it, and what it reads is not empty. *)
Lemma descent_total (fuel : nat) :
  (forall s, 2 * length s < fuel ->
     value_ fuel s <> Exhausted
     /\ forall v r, value_ fuel s = Parsed v r -> length r < length s)
  /\ (forall s acc, 2 * length s + 1 < fuel ->
     elements fuel s acc <> Exhausted
     /\ forall v r, elements fuel s acc = Parsed v r -> length r < length s)
  /\ (forall s acc, 2 * length s + 1 < fuel ->
     members fuel s acc <> Exhausted
     /\ forall v r, members fuel s acc = Parsed v r -> length r < length s).
Proof.
  induction fuel as [|fuel (IHv & IHe & IHm)].
  { repeat split; intros; lia. }
  split; [|split].
  - (* value_ *)
    intros s Hs. cbn [value_].
    pose proof (skipWs_length s) as Ls.
    destruct (skipWs s) as [|c r]; [split; [discriminate|intros; discriminate]|].
    simpl in Ls.
    pose proof (skipWs_length r) as Lr.
    destruct (c =? 123)%N.
    { destruct (expect 125 (skipWs r)) as [r'|] eqn:E.
      - apply expect_length in E.
        split; [discriminate|]. intros v r0 H; injection H as _ <-; lia.
      - destruct (IHm (skipWs r) []) as [Hne Hlen]; [lia|].
        split; [exact Hne|]. intros v r0 H; apply Hlen in H; lia. }
    destruct (c =? 91)%N.
    { destruct (expect 93 (skipWs r)) as [r'|] eqn:E.
      - apply expect_length in E.
        split; [discriminate|]. intros v r0 H; injection H as _ <-; lia.
      - destruct (IHe (skipWs r) []) as [Hne Hlen]; [lia|].
        split; [exact Hne|]. intros v r0 H; apply Hlen in H; lia. }
    destruct (c =? 34)%N.
    { destruct (stringChars r) as [[str r']|] eqn:E;
        [|split; [discriminate|intros; discriminate]].
      apply stringChars_length in E.
      split; [discriminate|]. intros v r0 H; injection H as _ <-; lia. }
    destruct (Js.startsWith (lit "true") (c :: r)).
    { pose proof (skipn_length_le 3 r) as Lk.
      split; [discriminate|]. intros v r0 H.
      assert (E : r0 = skipn 3 r) by congruence. rewrite E; lia. }
    destruct (Js.startsWith (lit "false") (c :: r)).
    { pose proof (skipn_length_le 4 r) as Lk.
      split; [discriminate|]. intros v r0 H.
      assert (E : r0 = skipn 4 r) by congruence. rewrite E; lia. }
    destruct (Js.startsWith (lit "null") (c :: r)).
    { pose proof (skipn_length_le 3 r) as Lk.
      split; [discriminate|]. intros v r0 H.
      assert (E : r0 = skipn 3 r) by congruence. rewrite E; lia. }
    destruct (number (c :: r)) as [[lexeme r']|] eqn:E;
      [|split; [discriminate|intros; discriminate]].
    apply number_length in E. simpl in E.
    split; [discriminate|]. intros v r0 H; injection H as _ <-; lia.
  - (* elements *)
    intros s acc Hs. cbn [elements].
    destruct (IHv s) as [Hne Hlen]; [lia|].
    destruct (value_ fuel s) as [v r| |];
      [|split; [discriminate|intros; discriminate]|congruence].
    specialize (Hlen _ _ eq_refl).
    pose proof (skipWs_length r) as Lr.
    destruct (expect 44 (skipWs r)) as [r'|] eqn:E1.
    + apply expect_length in E1.
      destruct (IHe r' (acc ++ [v])) as [Hne' Hlen']; [lia|].
      split; [exact Hne'|]. intros v0 r0 H; apply Hlen' in H; lia.
    + destruct (expect 93 (skipWs r)) as [r'|] eqn:E2;
        [|split; [discriminate|intros; discriminate]].
      apply expect_length in E2.
      split; [discriminate|]. intros v0 r0 H; injection H as _ <-; lia.
  - (* members *)
    intros s acc Hs. cbn [members].
    pose proof (skipWs_length s) as Ls.
    destruct (expect 34 (skipWs s)) as [r|] eqn:E0;
      [|split; [discriminate|intros; discriminate]].
    apply expect_length in E0.
    destruct (stringChars r) as [[k r1]|] eqn:E1;
      [|split; [discriminate|intros; discriminate]].
    apply stringChars_length in E1.
    pose proof (skipWs_length r1) as L1.
    destruct (expect 58 (skipWs r1)) as [r2|] eqn:E2;
      [|split; [discriminate|intros; discriminate]].
    apply expect_length in E2.
    destruct (IHv r2) as [Hne Hlen]; [lia|].
    destruct (value_ fuel r2) as [v r3| |];
      [|split; [discriminate|intros; discriminate]|congruence].
    specialize (Hlen _ _ eq_refl).
    pose proof (skipWs_length r3) as L3.
    destruct (expect 44 (skipWs r3)) as [r4|] eqn:E3.
    + apply expect_length in E3.
      destruct (IHm r4 (setMember k v acc)) as [Hne' Hlen']; [lia|].
      split; [exact Hne'|]. intros v0 r0 H; apply Hlen' in H; lia.
    + destruct (expect 125 (skipWs r3)) as [r4|] eqn:E4;
        [|split; [discriminate|intros; discriminate]].
      apply expect_length in E4.
      split; [discriminate|]. intros v0 r0 H; injection H as _ <-; lia.
Qed.

(** The budget [parse] gives the descent is enough: [parse] fails on a
    syntax error only. *)
Lemma parse_total (text : jsstring) :
  value_ (2 * length text + 2) text <> Exhausted.
Proof. apply (proj1 (descent_total (2 * length text + 2))); lia. Qed.

End JsonFacts.

(* ================================================================== *)
(** * From the completion to the schema *)
(* ================================================================== *)

Section GenerateFacts.

Lemma contains_false (c : N) (s : jsstring) :
  contains c s = false -> ~ In c s.
Proof.
  unfold contains. intros H Hin.
  assert (E : existsb (N.eqb c) s = true).
  { apply existsb_exists. exists c; split; [exact Hin | apply N.eqb_refl]. }
  congruence.
Qed.

Lemma replaceAll_in (pattern : jsstring -> option nat) (by_ : jsstring)
    (x : N) (s : jsstring) (skip : nat) :
  In x (replaceAll pattern by_ skip s) -> In x s \/ In x by_.
Proof.
  revert skip; induction s as [|c s IH]; intros skip; simpl; [tauto|].
  destruct skip as [|k].
  - destruct (pattern (c :: s)) as [[|k]|].
    + simpl. intros [->|H]; [tauto|]. apply IH in H; tauto.
    + intros H. apply in_app_or in H. destruct H as [H|H]; [tauto|].
      apply IH in H; tauto.
    + simpl. intros [->|H]; [tauto|]. apply IH in H; tauto.
  - intros H; apply IH in H; tauto.
Qed.

Lemma trimStart_in (x : N) (s : jsstring) : In x (trimStart s) -> In x s.
Proof.
  induction s as [|c s IH]; simpl; [tauto|].
  destruct (isSpace c); simpl; tauto.
Qed.

Lemma trim_in (x : N) (s : jsstring) : In x (trim s) -> In x s.
Proof.
  unfold trim. intros H.
  apply in_rev, trimStart_in, in_rev, trimStart_in in H. exact H.
Qed.

(** The clean-up adds nothing but spaces. *)
Lemma cleanedResponse_in (x : N) (s : jsstring) :
  In x (cleanedResponse s) -> In x s \/ x = 32%N.
Proof.
  unfold cleanedResponse. intros H.
  apply trim_in, replaceAll_in in H. destruct H as [H|H].
  - apply replaceAll_in in H. destruct H as [H|[]].
    apply replaceAll_in in H. destruct H as [H|[]]. tauto.
  - simpl in H. destruct H as [H|[]]. right; congruence.
Qed.

Lemma uptoLast_in (c : N) (s p : jsstring) :
  uptoLast c s = Some p -> In c s.
Proof.
  revert p; induction s as [|x s IH]; intros p; simpl; [discriminate|].
  destruct (uptoLast c s) as [q|].
  - intros _; right; eapply IH; reflexivity.
  - destruct (x =? c)%N eqn:E; [|discriminate].
    apply N.eqb_eq in E; intros _; left; exact E.
Qed.

Lemma firstn_in {A : Type} (n : nat) (x : A) (l : list A) :
  In x (firstn n l) -> In x l.
Proof.
  intros H. rewrite <- (firstn_skipn n l). apply in_or_app; tauto.
Qed.

(** The pattern finds something only in a text that has both braces. *)
Lemma jsonMatch_braces (s jsonStr : jsstring) :
  jsonMatch s = Some jsonStr -> In 123%N s /\ In 125%N s.
Proof.
  induction s as [|c s IH]; simpl; [discriminate|].
  destruct (c =? 123)%N eqn:E.
  - destruct (uptoLast 125 _) as [p|] eqn:U.
    + apply uptoLast_in, firstn_in in U. apply N.eqb_eq in E.
      intros _; split; [left; exact E | right; exact U].
    + intros H; apply IH in H; tauto.
  - intros H; apply IH in H; tauto.
Qed.

Lemma jsonMatch_none (text : jsstring) :
  contains 123 text = false \/ contains 125 text = false ->
  jsonMatch (cleanedResponse text) = None.
Proof.
  intros H.
  destruct (jsonMatch (cleanedResponse text)) as [j|] eqn:E; [|reflexivity].
  apply jsonMatch_braces in E. destruct E as [E1 E2].
  apply cleanedResponse_in in E1, E2.
  destruct H as [H|H]; apply contains_false in H.
  - destruct E1 as [E1|E1]; [tauto | discriminate].
  - destruct E2 as [E2|E2]; [tauto | discriminate].
Qed.

Lemma all_asString (l : list jsstring) : all asString (map JString l) = Some l.
Proof. induction l as [|s l IH]; simpl; [|rewrite IH]; reflexivity. Qed.

Lemma asField_fieldValue (f : SchemaField.t) : asField (fieldValue f) = Some f.
Proof.
  destruct f as [n ty cs d]. unfold asField, fieldValue, prop; cbn.
  rewrite all_asString; reflexivity.
Qed.

Lemma asTable_tableValue (t : TableSchema.t) : asTable (tableValue t) = Some t.
Proof.
  destruct t as [n fs rs ixs]. unfold asTable, tableValue, prop; cbn.
  rewrite !all_asString.
  assert (E : all asField (map fieldValue fs) = Some fs).
  { induction fs as [|f fs IH]; cbn [all map]; [reflexivity|].
    rewrite asField_fieldValue, IH; reflexivity. }
  rewrite E; reflexivity.
Qed.

(** A schema is read back from the object it evaluates to. *)
Lemma asSchema_schemaValue (schema : list TableSchema.t) :
  asSchema (schemaValue schema) = Some schema.
Proof.
  unfold asSchema, schemaValue.
  induction schema as [|t schema IH]; cbn [all map]; [reflexivity|].
  rewrite asTable_tableValue, IH; reflexivity.
Qed.

(** C1, as the code has it: a completion text that is not empty and that
    holds no opening brace, or no closing brace, or whose extracted
    substring is not valid JSON, makes [generateSchema] return
    [mockSchema]. *)
Theorem generateSchema_fallback (text : jsstring) :
  text <> [] ->
  contains 123 text = false
  \/ contains 125 text = false
  \/ (exists jsonStr, jsonMatch (cleanedResponse text) = Some jsonStr
                      /\ parse jsonStr = None) ->
  generateSchema (Some text) = fallback.
Proof.
  intros Hne H. unfold generateSchema, fallback.
  destruct text as [|c text]; [congruence|].
  unfold tryBlock.
  destruct H as [H|[H|(j & Hj & Hp)]].
  - rewrite jsonMatch_none by tauto. reflexivity.
  - rewrite jsonMatch_none by tauto. reflexivity.
  - rewrite Hj, Hp. reflexivity.
Qed.

Lemma generateSchema_fallback_witness :
  generateSchema (Some (lit "not json")) = fallback
  /\ generateSchema (Some (lit "{ tables: [")) = fallback
  /\ generateSchema (Some (lit "{ tables: [ } }")) = fallback.
Proof.
  split; [|split].
  - apply generateSchema_fallback; [discriminate | left; reflexivity].
  - apply generateSchema_fallback; [discriminate | right; left; reflexivity].
  - apply generateSchema_fallback; [discriminate | right; right].
    exists (lit "{ tables: [ } }"). split; reflexivity.
Defined.

(** C1 as stated does not hold: the empty completion has no brace and is
    rejected; a text with one opening and two closing braces yields the
    parsed array; an object without [tables] yields [undefined]. *)
Lemma generateSchema_not_fallback :
  (contains 123 [] = false
   /\ generateSchema (Some []) = Rejected (ErrorInstance (lit "No response from Groq"))
   /\ generateSchema (Some []) <> fallback)
  /\ (count_occ N.eq_dec (dq "} {'tables': []}") 123%N = 1
      /\ count_occ N.eq_dec (dq "} {'tables': []}") 125%N = 2
      /\ generateSchema (Some (dq "} {'tables': []}")) = Fulfilled (Some (JArray []))
      /\ generateSchema (Some (dq "} {'tables': []}")) <> fallback)
  /\ (parse (dq "{'foo': 1}") = Some (JObject [(lit "foo", JNumber (lit "1"))])
      /\ lookup (lit "tables") [(lit "foo", JNumber (lit "1"))] = None
      /\ generateSchema (Some (dq "{'foo': 1}")) = Fulfilled None
      /\ generateSchema (Some (dq "{'foo': 1}")) <> fallback).
Proof.
  repeat split; try reflexivity; vm_compute; discriminate.
Qed.

(** C7: whatever completion made [generateSchema] return the fallback
    schema, what is rendered and saved is the same text: two CREATE TABLE
    statements, for [users] (id, username, email, created_at) and for
    [posts] (id, title, content, user_id, created_at), each followed by
    its index statement. *)
Theorem fallback_sql (response : option jsstring) :
  generateSchema response = fallback ->
  main response
    = Saved (join [LF; LF]
               [usersStatement; usersIndex; postsStatement; postsIndex])
  /\ Render.statements Mock.mockSchema
    = [usersStatement; usersIndex; postsStatement; postsIndex]
  /\ Js.occurrences (lit "CREATE TABLE")
       (join [LF; LF] [usersStatement; usersIndex; postsStatement; postsIndex])
     = 2
  /\ map (fun table => (TableSchema.name table,
                        map SchemaField.name (TableSchema.fields table)))
         Mock.mockSchema
     = [ (lit "users",
          [lit "id"; lit "username"; lit "email"; lit "created_at"]);
         (lit "posts",
          [lit "id"; lit "title"; lit "content"; lit "user_id";
           lit "created_at"]) ].
Proof.
  intros H. split; [|split; [|split]].
  - unfold main. rewrite H. unfold fallback.
    rewrite asSchema_schemaValue. reflexivity.
  - reflexivity.
  - vm_compute; reflexivity.
  - reflexivity.
Qed.

Lemma fallback_sql_witness :
  generateSchema (Some (lit "not json")) = fallback
  /\ main (Some (lit "not json"))
     = Saved (join [LF; LF]
                [usersStatement; usersIndex; postsStatement; postsIndex]).
Proof.
  assert (H : generateSchema (Some (lit "not json")) = fallback)
    by reflexivity.
  split; [exact H | exact (proj1 (fallback_sql (Some (lit "not json")) H))].
Defined.

End GenerateFacts.

(* ================================================================== *)
(** * The operation timer and the runners *)
(* ================================================================== *)

Section TimerFacts.

Import Benchmark.

Variable World : Type.
Variable dateNow : World -> float * World.

Lemma Appends_measureOperation (database operation : jsstring)
    (fn : Action World) :
  Appends (measureOperation dateNow database operation fn)
          [(database, operation)].
Proof.
  intros results w. unfold measureOperation.
  destruct (dateNow w) as [start w1].
  destruct (fn w1) as [[u|e] w2]; destruct (dateNow w2) as [now w3];
    eexists [_], w3; split; reflexivity.
Qed.

Lemma Appends_andThen (m k : Async World unit)
    (l1 l2 : list (jsstring * jsstring)) :
  Appends m l1 -> Appends k l2 -> Appends (andThen m k) (l1 ++ l2).
Proof.
  intros Hm Hk results w. unfold andThen.
  destruct (Hm results w) as (a1 & w1 & E1 & L1). rewrite E1.
  destruct (Hk (results ++ a1) w1) as (a2 & w2 & E2 & L2). rewrite E2.
  exists (a1 ++ a2), w2. rewrite app_assoc, map_app, L1, L2. auto.
Qed.

Lemma Appends_invokeAll (calls : list (Invocation World)) :
  Appends (invokeAll dateNow calls) (map fst calls).
Proof.
  induction calls as [|[[database operation] fn] calls IH].
  - intros results w. exists [], w. simpl. rewrite app_nil_r. auto.
  - apply (Appends_andThen (Appends_measureOperation _ _ _) IH).
Qed.

(** C2: one invocation of the timer is fulfilled and appends exactly one
    entry, labelled as asked, however the action settles; [n] invocations
    in a row are fulfilled and append exactly [n] entries, one per call
    and in the order of the calls, to what was there. *)
Theorem measureOperation_one_entry :
  (forall database operation fn results w, exists r w',
      measureOperation dateNow database operation fn results w
        = (Fulfilled tt, results ++ [r], w')
      /\ label r = (database, operation))
  /\ (forall calls results w, exists added w',
      invokeAll dateNow calls results w = (Fulfilled tt, results ++ added, w')
      /\ length added = length calls
      /\ map label added = map fst calls).
Proof.
  split.
  - intros database operation fn results w.
    destruct (Appends_measureOperation database operation fn results w)
      as (added & w' & E & L).
    destruct added as [|r [|r' added]]; try discriminate.
    exists r, w'. split; [exact E|]. simpl in L. congruence.
  - intros calls results w.
    destruct (Appends_invokeAll calls results w) as (added & w' & E & L).
    exists added, w'. split; [exact E|]. split; [|exact L].
    rewrite <- (length_map label), L, length_map. reflexivity.
Qed.

(** C3, as the code has it: when the action completes, the entry has
    [success = true] and no error message; when it raises, the entry has
    [success = false] and an error message, which is the message of the
    [Error] thrown, or [Unknown error] for any other value, and so is
    empty exactly when an [Error] with an empty message was thrown. *)
Theorem measureOperation_outcome (database operation : jsstring)
    (fn : Action World) (results : list BenchmarkResult) (w : World) :
  exists r w',
    measureOperation dateNow database operation fn results w
      = (Fulfilled tt, results ++ [r], w')
    /\ match fst (fn (snd (dateNow w))) with
       | Fulfilled _ => success r = true /\ error r = None
       | Rejected e =>
         success r = false
         /\ exists message, error r = Some message
            /\ (forall m, e = ErrorInstance m -> message = m)
            /\ (forall v, e = NotAnError v -> message = lit "Unknown error")
            /\ (message = [] <-> e = ErrorInstance [])
       end.
Proof.
  unfold measureOperation.
  destruct (dateNow w) as [start w1]. cbn [snd].
  destruct (fn w1) as [[u|e] w2]; destruct (dateNow w2) as [now w3];
    cbn [fst]; eexists _, w3; (split; [reflexivity|]); cbn.
  - auto.
  - split; [reflexivity|]. eexists; split; [reflexivity|].
    destruct e as [m|v]; repeat split; try congruence; try discriminate.
Qed.

(** C10: when the action raises, the entry records latency 0, while its
    duration is the time measured up to the failure; and when what was
    thrown is not an [Error], its message is [Unknown error]. *)
Theorem measureOperation_failure (database operation : jsstring)
    (fn : Action World) (results : list BenchmarkResult)
    (w w1 w2 w3 : World) (start now : float) (e : thrown) :
  dateNow w = (start, w1) ->
  fn w1 = (Rejected e, w2) ->
  dateNow w2 = (now, w3) ->
  exists r,
    measureOperation dateNow database operation fn results w
      = (Fulfilled tt, results ++ [r], w3)
    /\ latency r = 0%float
    /\ duration r = PrimFloat.sub now start
    /\ success r = false
    /\ (forall v, e = NotAnError v -> error r = Some (lit "Unknown error")).
Proof.
  intros H0 H1 H2. unfold measureOperation. rewrite H0, H1, H2.
  eexists; split; [reflexivity|]. cbn.
  repeat split. intros v ->. reflexivity.
Qed.

Variable Row : Type.
Variable clients : Clients World Row.

Lemma runWriteTest_labels :
  Appends (runWriteTest dateNow clients)
    [ (lit "Neon", lit "Write 10k rows");
      (lit "Supabase", lit "Write 10k rows");
      (lit "MongoDB", lit "Write 10k rows") ].
Proof.
  intros results w. unfold runWriteTest.
  destruct (arrayFrom (makeRow clients) _ w) as [testData w0].
  apply (Appends_andThen (Appends_measureOperation _ _ _)
          (Appends_andThen (Appends_measureOperation _ _ _)
             (Appends_measureOperation _ _ _))).
Qed.

Lemma runReadTest_labels :
  Appends (runReadTest dateNow clients)
    [ (lit "Neon", lit "Simple Query");
      (lit "Supabase", lit "Simple Query");
      (lit "MongoDB", lit "Simple Query");
      (lit "Neon", lit "Complex Query");
      (lit "Supabase", lit "Complex Query");
      (lit "MongoDB", lit "Complex Query") ].
Proof.
  unfold runReadTest.
  repeat (first [ apply Appends_measureOperation
                | apply (Appends_andThen (Appends_measureOperation _ _ _)) ]).
Qed.

Lemma runColdStartTest_Appends :
  Appends (runColdStartTest dateNow clients)
    [ (lit "Neon", lit "Cold Start"); (lit "MongoDB", lit "Cold Start") ].
Proof.
  apply (Appends_andThen (Appends_measureOperation _ _ _)
           (Appends_measureOperation _ _ _)).
Qed.

(** A whole run files eleven entries: three backends for the write, the
    simple and the complex query, two for the cold start. *)
Lemma runBenchmarks_labels :
  Appends (runBenchmarks dateNow clients)
    [ (lit "Neon", lit "Write 10k rows");
      (lit "Supabase", lit "Write 10k rows");
      (lit "MongoDB", lit "Write 10k rows");
      (lit "Neon", lit "Simple Query");
      (lit "Supabase", lit "Simple Query");
      (lit "MongoDB", lit "Simple Query");
      (lit "Neon", lit "Complex Query");
      (lit "Supabase", lit "Complex Query");
      (lit "MongoDB", lit "Complex Query");
      (lit "Neon", lit "Cold Start");
      (lit "MongoDB", lit "Cold Start") ].
Proof.
  apply (Appends_andThen runWriteTest_labels
           (Appends_andThen runReadTest_labels runColdStartTest_Appends)).
Qed.

(** C6, on the cold-start runner: it is fulfilled after exactly two
    invocations of the timer, for Neon and for MongoDB; there is none for
    Supabase. *)
Theorem runColdStartTest_labels (results : list BenchmarkResult) (w : World) :
  exists added w',
    runColdStartTest dateNow clients results w
      = (Fulfilled tt, results ++ added, w')
    /\ map label added
       = [ (lit "Neon", lit "Cold Start"); (lit "MongoDB", lit "Cold Start") ]
    /\ ~ In (lit "Supabase") (map database added).
Proof.
  destruct (runColdStartTest_Appends results w) as (added & w' & E & L).
  exists added, w'. split; [exact E|]. split; [exact L|].
  assert (D : map database added = map fst (map label added))
    by (rewrite map_map; reflexivity).
  rewrite D, L. simpl. intros [H|[H|[]]]; discriminate.
Qed.

End TimerFacts.

(** C3 as stated does not hold: an action that throws [new Error()] leaves
    an entry whose error message is the empty string. *)
Lemma measureOperation_empty_message :
  Benchmark.measureOperation Benchmark.readClock (lit "Neon") (lit "Cold Start")
    (Benchmark.after 5 (Rejected (ErrorInstance []))) [] 0%float
  = (Fulfilled tt,
     [Benchmark.mkResult (lit "Neon") (lit "Cold Start") 5 0 false (Some [])],
     5%float).
Proof. vm_compute. reflexivity. Qed.

Lemma measureOperation_failure_witness :
  exists r,
    Benchmark.measureOperation Benchmark.readClock (lit "Supabase")
      (lit "Simple Query") (Benchmark.after 7 (Rejected (NotAnError None)))
      [] 3%float
    = (Fulfilled tt, [] ++ [r], 10%float)
    /\ Benchmark.latency r = 0%float
    /\ Benchmark.duration r = PrimFloat.sub 10 3
    /\ Benchmark.success r = false
    /\ (forall v, NotAnError None = NotAnError v ->
        Benchmark.error r = Some (lit "Unknown error")).
Proof.
  apply (@measureOperation_failure Benchmark.Clock Benchmark.readClock
           (lit "Supabase") (lit "Simple Query")
           (Benchmark.after 7 (Rejected (NotAnError None))) []
           3%float 3%float 10%float 10%float 3%float 10%float
           (NotAnError None)); reflexivity.
Defined.

(* ================================================================== *)
(** * The aggregation of [printResults] *)
(* ================================================================== *)

Section AggregationFacts.

Import Benchmark.

Lemma seen_iff (k : jsstring) (ks : list jsstring) :
  seen k ks = true <-> In k ks.
Proof.
  unfold seen. rewrite existsb_exists. split.
  - intros (x & Hin & E). apply eqb_eq in E. now subst.
  - intros Hin. exists k. split; [exact Hin | apply eqb_refl].
Qed.

Lemma firstSeen_snoc (ks : list jsstring) (k : jsstring) :
  firstSeen (ks ++ [k])
    = if seen k (firstSeen ks) then firstSeen ks else firstSeen ks ++ [k].
Proof. unfold firstSeen. rewrite fold_left_app. reflexivity. Qed.

Lemma firstSeen_in (k : jsstring) (ks : list jsstring) :
  In k (firstSeen ks) <-> In k ks.
Proof.
  induction ks as [|k' ks IH] using rev_ind; [reflexivity|].
  rewrite firstSeen_snoc, in_app_iff.
  destruct (seen k' (firstSeen ks)) eqn:E.
  - apply seen_iff in E. rewrite IH in *. simpl.
    split; [tauto|]. intros [H|[<-|[]]]; tauto.
  - rewrite in_app_iff, IH. reflexivity.
Qed.

Lemma firstSeen_NoDup (ks : list jsstring) : NoDup (firstSeen ks).
Proof.
  induction ks as [|k ks IH] using rev_ind; [constructor|].
  rewrite firstSeen_snoc.
  destruct (seen k (firstSeen ks)) eqn:E; [exact IH|].
  apply NoDup_app; [exact IH | repeat constructor; simpl; tauto |].
  intros x Hx [<-|[]]. apply seen_iff in Hx. congruence.
Qed.

Lemma groupedResults_snoc (results : list BenchmarkResult)
    (r : BenchmarkResult) :
  groupedResults (results ++ [r]) = pushTo (key r) r (groupedResults results).
Proof. unfold groupedResults. rewrite fold_left_app. reflexivity. Qed.

Lemma entriesOf_snoc (k : jsstring) (results : list BenchmarkResult)
    (r : BenchmarkResult) :
  entriesOf k (results ++ [r])
    = entriesOf k results ++ (if Js.eqb (key r) k then [r] else []).
Proof. unfold entriesOf. rewrite filter_app. reflexivity. Qed.

Lemma entriesOf_nil (k : jsstring) (results : list BenchmarkResult) :
  ~ In k (map key results) -> entriesOf k results = [].
Proof.
  intros H. unfold entriesOf.
  induction results as [|r results IH]; simpl in *; [reflexivity|].
  destruct (Js.eqb (key r) k) eqn:E.
  - apply eqb_eq in E. tauto.
  - apply IH. tauto.
Qed.

(** Filing an entry under [k] in a table whose keys are distinct. *)
Lemma pushTo_table (f : jsstring -> list BenchmarkResult)
    (k : jsstring) (r : BenchmarkResult) (ks : list jsstring) :
  NoDup ks ->
  pushTo k r (map (fun k' => (k', f k')) ks)
    = if seen k ks
      then map (fun k' => (k', if Js.eqb k' k then f k' ++ [r] else f k')) ks
      else map (fun k' => (k', f k')) ks ++ [(k, [r])].
Proof.
  induction 1 as [|k0 ks Hnin Hnd IH]; [reflexivity|].
  unfold seen in *. cbn [map pushTo existsb].
  rewrite (eqb_sym k k0).
  destruct (Js.eqb k0 k) eqn:E; cbn [orb].
  - f_equal. apply map_ext_in. intros k' Hin.
    destruct (Js.eqb k' k) eqn:E'; [|reflexivity].
    apply eqb_eq in E, E'. congruence.
  - rewrite IH. destruct (existsb (Js.eqb k) ks); reflexivity.
Qed.

(** The table the first [reduce] builds: one row per distinct key, in the
    order of first occurrence, holding the entries of that key in the
    order of the sequence. *)
Lemma groupedResults_table (results : list BenchmarkResult) :
  groupedResults results
    = map (fun k => (k, entriesOf k results)) (firstSeen (map key results)).
Proof.
  induction results as [|r results IH] using rev_ind; [reflexivity|].
  rewrite groupedResults_snoc, IH, map_app.
  change (map key [r]) with [key r]. rewrite firstSeen_snoc.
  rewrite pushTo_table by apply firstSeen_NoDup.
  destruct (seen (key r) (firstSeen (map key results))) eqn:E.
  - apply map_ext. intros k. rewrite entriesOf_snoc, (eqb_sym k (key r)).
    destruct (Js.eqb (key r) k); [reflexivity | now rewrite app_nil_r].
  - assert (Hnin : ~ In (key r) (firstSeen (map key results))).
    { intros H. apply seen_iff in H. congruence. }
    rewrite map_app. cbn [map]. f_equal.
    + apply map_ext_in. intros k Hin. rewrite entriesOf_snoc.
      destruct (Js.eqb (key r) k) eqn:E'; [|now rewrite app_nil_r].
      apply eqb_eq in E'. subst k. tauto.
    + rewrite entriesOf_snoc, eqb_refl, entriesOf_nil; [reflexivity|].
      rewrite <- firstSeen_in. exact Hnin.
Qed.

Lemma pushTo_concat (k : jsstring) (r : BenchmarkResult) (acc : Groups) :
  Permutation (concat (map snd (pushTo k r acc)))
              (concat (map snd acc) ++ [r]).
Proof.
  induction acc as [|[k' rs] acc IH]; simpl; [reflexivity|].
  destruct (Js.eqb k' k); simpl.
  - rewrite <- !app_assoc. apply Permutation_app_head.
    apply Permutation_app_comm.
  - rewrite <- app_assoc. apply Permutation_app_head. exact IH.
Qed.

Lemma groupedResults_concat (results : list BenchmarkResult) :
  Permutation (concat (map snd (groupedResults results))) results.
Proof.
  induction results as [|r results IH] using rev_ind; [reflexivity|].
  rewrite groupedResults_snoc, pushTo_concat.
  apply Permutation_app_tail. exact IH.
Qed.

Lemma entriesOf_in (k : jsstring) (results : list BenchmarkResult)
    (r : BenchmarkResult) :
  In r (entriesOf k results) <-> In r results /\ key r = k.
Proof. unfold entriesOf. rewrite filter_In, eqb_eq. reflexivity. Qed.

Lemma groupedResults_in (results : list BenchmarkResult) (k : jsstring)
    (g : list BenchmarkResult) :
  In (k, g) (groupedResults results) ->
  In k (map key results) /\ g = entriesOf k results.
Proof.
  rewrite groupedResults_table, in_map_iff.
  intros (k' & E & Hin). injection E as -> <-.
  rewrite firstSeen_in in Hin. auto.
Qed.

(** A hyphen-free backend name can be read back from the key. *)
Lemma key_split (a a' b b' : jsstring) :
  ~ In 45%N a -> ~ In 45%N a' ->
  a ++ 45%N :: b = a' ++ 45%N :: b' -> a = a' /\ b = b'.
Proof.
  revert a'. induction a as [|x a IH]; intros [|x' a'] Ha Ha' E;
    simpl in *.
  - injection E as ->. auto.
  - injection E as <- _. tauto.
  - injection E as -> _. tauto.
  - injection E as -> E. destruct (IH a') as [-> ->]; auto.
Qed.

(** C5, as the code has it: the groups have distinct keys; each holds
    exactly the entries whose key, the backend name, a hyphen and the
    operation name, is the key of the group, none is empty, and together
    they hold every entry of the sequence as often as it occurs, so every
    entry is in the group of its key and in no other.  Two entries share a
    group if and only if their keys are equal; entries with the same
    backend and operation always do, and the converse holds when neither
    backend name holds a hyphen. *)
Theorem groupedResults_partition (results : list BenchmarkResult) :
  NoDup (map fst (groupedResults results))
  /\ Forall (fun entry => snd entry <> []
                          /\ snd entry = entriesOf (fst entry) results)
            (groupedResults results)
  /\ Permutation (concat (map snd (groupedResults results))) results
  /\ (forall r k g, In r results -> In (k, g) (groupedResults results) ->
        (In r g <-> k = key r))
  /\ (forall r1 r2, In r1 results -> In r2 results ->
        ((exists k g, In (k, g) (groupedResults results)
                      /\ In r1 g /\ In r2 g)
         <-> key r1 = key r2))
  /\ (forall r1 r2, label r1 = label r2 -> key r1 = key r2)
  /\ (forall r1 r2,
        contains 45 (database r1) = false ->
        contains 45 (database r2) = false ->
        key r1 = key r2 -> label r1 = label r2).
Proof.
  split; [|split; [|split; [|split; [|split; [|split]]]]].
  - rewrite groupedResults_table, map_map. cbn [fst].
    rewrite map_id. apply firstSeen_NoDup.
  - apply Forall_forall. intros [k g] Hin. cbn [fst snd].
    apply groupedResults_in in Hin. destruct Hin as [Hk ->].
    split; [|reflexivity].
    apply in_map_iff in Hk. destruct Hk as (r & E & Hr).
    intros Hnil.
    assert (H : In r (entriesOf k results)) by (apply entriesOf_in; auto).
    rewrite Hnil in H. exact H.
  - apply groupedResults_concat.
  - intros r k g Hr Hin. apply groupedResults_in in Hin.
    destruct Hin as [_ ->]. rewrite entriesOf_in. split; intuition congruence.
  - intros r1 r2 H1 H2. split.
    + intros (k & g & Hin & G1 & G2). apply groupedResults_in in Hin.
      destruct Hin as [_ ->]. apply entriesOf_in in G1, G2.
      destruct G1 as [_ ->]. destruct G2 as [_ E]. auto.
    + intros E. exists (key r1), (entriesOf (key r1) results).
      split; [|split]; try (apply entriesOf_in; auto).
      rewrite groupedResults_table. apply in_map_iff.
      exists (key r1). split; [reflexivity|].
      apply firstSeen_in, in_map. exact H1.
  - intros r1 r2 E. unfold label in E. injection E as E1 E2.
    unfold key. congruence.
  - intros r1 r2 D1 D2 E. apply contains_false in D1, D2.
    unfold key in E. cbn [lit] in E.
    destruct (key_split _ _ _ _ D1 D2 E) as [E1 E2].
    unfold label. congruence.
Qed.

Lemma fold_left_map {A B C : Type} (f : A -> B -> A) (g : C -> B)
    (l : list C) (a : A) :
  fold_left (fun acc x => f acc (g x)) l a = fold_left f (map g l) a.
Proof. revert a; induction l as [|x l IH]; intros a; simpl; auto. Qed.

Lemma summarize_metrics (k : jsstring) (g : list BenchmarkResult) :
  group (summarize (k, g)) = k
  /\ successRate (summarize (k, g))
     = percentage (length (filter success g)) (length g)
  /\ avgDuration (summarize (k, g)) = mean (map duration g).
Proof.
  unfold summarize, percentage, mean. cbn.
  rewrite length_map, <- (fold_left_map PrimFloat.add duration). auto.
Qed.

(** C4: for every group the report has one line; with [n] the number of
    the group's entries and [k] the number of those with [success = true],
    its success rate is (k / n) * 100 and its average duration is the sum
    of the durations of all [n] entries, failed ones included, over [n],
    in the arithmetic of JavaScript numbers (binary64) and in this order
    of operations. *)
Theorem printResults_metrics (results : list BenchmarkResult) :
  map group (printResults results) = firstSeen (map key results)
  /\ Forall (fun line =>
       let entries := entriesOf (group line) results in
       entries <> []
       /\ successRate line
          = percentage (length (filter success entries)) (length entries)
       /\ avgDuration line = mean (map duration entries))
      (printResults results)
  /\ Forall (fun entry =>
       successRate (summarize entry)
         = percentage (length (filter success (snd entry)))
                      (length (snd entry))
       /\ avgDuration (summarize entry) = mean (map duration (snd entry)))
      (groupedResults results).
Proof.
  unfold printResults. split; [|split].
  - rewrite groupedResults_table, !map_map.
    erewrite map_ext; [apply map_id|].
    intros k. apply (summarize_metrics k (entriesOf k results)).
  - apply Forall_forall. intros line Hin.
    apply in_map_iff in Hin. destruct Hin as ([k g] & <- & Hin).
    apply groupedResults_in in Hin. destruct Hin as [Hk ->].
    destruct (summarize_metrics k (entriesOf k results)) as (-> & -> & ->).
    split; [|auto].
    apply in_map_iff in Hk. destruct Hk as (r & E & Hr). intros Hnil.
    assert (H : In r (entriesOf k results)) by (apply entriesOf_in; auto).
    rewrite Hnil in H. exact H.
  - apply Forall_forall. intros [k g] _. cbn [snd].
    destruct (summarize_metrics k g) as (_ & -> & ->). auto.
Qed.

End AggregationFacts.

(* ================================================================== *)
(** * Runs on concrete inputs *)
(* ================================================================== *)

(** A completion wrapped in a code fence is cleaned: the opening fence goes
    with its language tag when it starts the text; behind a line feed the
    second alternative of the pattern takes the line feed and the
    backquotes, and the tag stays. *)
Example cleaned_fenced_completion :
  cleanedResponse (dq "```json
{ 'tables':   [ ] }
```
")
  = dq "{ 'tables': [ ] }"
  /\ cleanedResponse (dq "Here it is:
```json
{ 'tables':   [ ] }
```
")
  = dq "Here it is:json{ 'tables': [ ] }".
Proof. vm_compute. split; reflexivity. Qed.

Example generateSchema_parsed :
  generateSchema (Some (dq "```json
{'tables': [{'name': 'tags', 'fields': [{'name': 'id', 'type': 'SERIAL',
 'constraints': ['PRIMARY KEY'], 'description': 'key'}],
 'relationships': [], 'indexes': ['CREATE INDEX i ON tags(id);']}]}
```"))
  = Fulfilled (Some (schemaValue
      [TableSchema.mk (lit "tags")
         [SchemaField.mk (lit "id") (lit "SERIAL") [lit "PRIMARY KEY"] (lit "key")]
         [] [lit "CREATE INDEX i ON tags(id);"]])).
Proof. vm_compute. reflexivity. Qed.

Example main_parsed :
  main (Some (dq "{'tables': [{'name': 'tags', 'fields': [{'name': 'id',
 'type': 'SERIAL', 'constraints': ['PRIMARY KEY'], 'description': 'key'}],
 'relationships': [], 'indexes': ['CREATE INDEX i ON tags(id);']}]}"))
  = Saved (lit "
CREATE TABLE tags (
  id SERIAL PRIMARY KEY
);

CREATE INDEX i ON tags(id);").
Proof. vm_compute. reflexivity. Qed.

(** An object without [tables] goes through [main] as [undefined]. *)
Example main_without_tables :
  main (Some (dq "{'foo': 1}")) = Untyped None.
Proof. vm_compute. reflexivity. Qed.

(** The arithmetic of the report is that of JavaScript numbers: 7 out of 25
    is printed from 28.000000000000004, 1 out of 3 from
    33.333333333333329. *)
Example percentage_rounding :
  Benchmark.percentage 7 25 = 0x1.c000000000001p+4%float
  /\ Benchmark.percentage 1 3 = 0x1.0aaaaaaaaaaaap+5%float
  /\ Benchmark.percentage 3 3 = 100%float
  /\ Benchmark.mean [12; 7; 8]%float = 9%float.
Proof. vm_compute. repeat split. Qed.

Lemma measureOperation_outcome_witness :
  exists r w',
    Benchmark.measureOperation Benchmark.readClock (lit "MongoDB")
      (lit "Simple Query")
      (Benchmark.after 4 (Rejected (ErrorInstance (lit "timed out"))))
      [] 1%float
    = (Fulfilled tt, [] ++ [r], w')
    /\ Benchmark.success r = false
    /\ exists message, Benchmark.error r = Some message
       /\ (forall m, ErrorInstance (lit "timed out") = ErrorInstance m ->
           message = m)
       /\ (forall v, ErrorInstance (lit "timed out") = NotAnError v ->
           message = lit "Unknown error")
       /\ (message = [] <-> ErrorInstance (lit "timed out") = ErrorInstance []).
Proof.
  exact (measureOperation_outcome Benchmark.readClock (lit "MongoDB")
           (lit "Simple Query")
           (Benchmark.after 4 (Rejected (ErrorInstance (lit "timed out"))))
           [] 1%float).
Defined.

(** C5 as stated does not hold: two entries with different backend names
    and different operation names are filed under one key. *)
Lemma groupedResults_collision :
  let r1 := Benchmark.mkResult (lit "a-b") (lit "c") 1 1 true None in
  let r2 := Benchmark.mkResult (lit "a") (lit "b-c") 2 2 true None in
  Benchmark.groupedResults [r1; r2] = [(lit "a-b-c", [r1; r2])]
  /\ Benchmark.database r1 <> Benchmark.database r2
  /\ Benchmark.operation r1 <> Benchmark.operation r2.
Proof. cbv zeta. split; [reflexivity|]. split; discriminate. Qed.

Lemma groupedResults_partition_witness :
  let results :=
    [ Benchmark.mkResult (lit "Neon") (lit "Simple Query") 12 12 true None;
      Benchmark.mkResult (lit "MongoDB") (lit "Simple Query") 8 0 false
        (Some (lit "Unknown error"));
      Benchmark.mkResult (lit "Neon") (lit "Simple Query") 14 14 true None ] in
  Benchmark.groupedResults results
    = [ (lit "Neon-Simple Query",
         [ Benchmark.mkResult (lit "Neon") (lit "Simple Query") 12 12 true None;
           Benchmark.mkResult (lit "Neon") (lit "Simple Query") 14 14 true None ]);
        (lit "MongoDB-Simple Query",
         [ Benchmark.mkResult (lit "MongoDB") (lit "Simple Query") 8 0 false
             (Some (lit "Unknown error")) ]) ]
  /\ NoDup (map fst (Benchmark.groupedResults results))
  /\ Permutation (concat (map snd (Benchmark.groupedResults results))) results.
Proof.
  cbv zeta. split; [reflexivity|].
  split;
    [ exact (proj1 (groupedResults_partition _))
    | exact (proj1 (proj2 (proj2 (groupedResults_partition _)))) ].
Defined.

(* ================================================================== *)
(** * The clean-up of the completion *)
(* ================================================================== *)

Section CleanFacts.

Lemma replaceAll_skip (pattern : jsstring -> option nat) (by_ : jsstring)
    (k : nat) (s : jsstring) :
  replaceAll pattern by_ k s = replaceAll pattern by_ 0 (skipn k s).
Proof.
  revert s; induction k as [|k IH]; intros s; [reflexivity|].
  destruct s as [|c s]; [reflexivity|]. simpl. apply IH.
Qed.

Lemma skipn_run_trimStart (s : jsstring) :
  skipn (run isSpace s) s = trimStart s.
Proof.
  induction s as [|c s IH]; simpl; [reflexivity|].
  destruct (isSpace c); simpl; auto.
Qed.

(** The two ways a step of the white-space replacement goes. *)
Lemma squeeze_keep (c : N) (s : jsstring) :
  isSpace c = false ->
  replaceAll spaces (lit " ") 0 (c :: s)
    = c :: replaceAll spaces (lit " ") 0 s.
Proof.
  intros H. cbn [replaceAll]. unfold spaces. cbn [run]. rewrite H. reflexivity.
Qed.

Lemma squeeze_run (c : N) (s : jsstring) :
  isSpace c = true ->
  replaceAll spaces (lit " ") 0 (c :: s)
    = 32%N :: replaceAll spaces (lit " ") 0 (trimStart s).
Proof.
  intros H. cbn [replaceAll]. unfold spaces. cbn [run]. rewrite H.
  cbn [lit app]. rewrite replaceAll_skip, skipn_run_trimStart. reflexivity.
Qed.

Lemma trimStart_length (s : jsstring) : length (trimStart s) <= length s.
Proof.
  induction s as [|c s IH]; simpl; [lia|]. destruct (isSpace c); simpl; lia.
Qed.

Lemma trimStart_head (s : jsstring) : headNonSpace (trimStart s) = true.
Proof.
  induction s as [|c s IH]; simpl; [reflexivity|].
  destruct (isSpace c) eqn:E; [exact IH|]. simpl. now rewrite E.
Qed.

Lemma squeeze_shape (n : nat) (s : jsstring) :
  length s <= n ->
  onlySpaces (replaceAll spaces (lit " ") 0 s) = true
  /\ singleSpaced (replaceAll spaces (lit " ") 0 s) = true
  /\ (headNonSpace s = true ->
      headNonSpace (replaceAll spaces (lit " ") 0 s) = true).
Proof.
  revert s; induction n as [|n IH]; intros [|c s] L; simpl in L;
    try lia; try (repeat split; reflexivity).
  destruct (isSpace c) eqn:E.
  - rewrite (@squeeze_run c s E).
    destruct (IH (trimStart s)) as (O & S & H).
    { pose proof (trimStart_length s). lia. }
    specialize (H (trimStart_head s)).
    split; [|split].
    + unfold onlySpaces in *. cbn [forallb]. rewrite O. reflexivity.
    + cbn [singleSpaced].
      destruct (replaceAll spaces (lit " ") 0 (trimStart s)) as [|b r];
        [reflexivity|].
      simpl in H. rewrite S. apply negb_true_iff in H. rewrite H.
      rewrite andb_false_r. reflexivity.
    + simpl. rewrite E. discriminate.
  - rewrite (@squeeze_keep c s E).
    destruct (IH s) as (O & S & H); [lia|].
    split; [|split].
    + unfold onlySpaces in *. cbn [forallb]. rewrite O, E. reflexivity.
    + cbn [singleSpaced].
      destruct (replaceAll spaces (lit " ") 0 s) as [|b r]; [reflexivity|].
      rewrite S, E. reflexivity.
    + intros _. simpl. rewrite E. reflexivity.
Qed.

Lemma trimStart_suffix (s : jsstring) : exists pre, s = pre ++ trimStart s.
Proof.
  induction s as [|c s (pre & IH)]; [exists []; reflexivity|]. simpl.
  destruct (isSpace c).
  - exists (c :: pre). simpl. now rewrite <- IH.
  - exists []. reflexivity.
Qed.

Lemma trimStart_id (s : jsstring) : headNonSpace s = true -> trimStart s = s.
Proof.
  destruct s as [|c s]; simpl; [reflexivity|].
  intros H. apply negb_true_iff in H. now rewrite H.
Qed.

(** What [trim] keeps is a prefix of a suffix of the text. *)
Lemma trim_infix (s : jsstring) : exists pre post, s = pre ++ trim s ++ post.
Proof.
  unfold trim.
  destruct (trimStart_suffix s) as (pre & E1).
  destruct (trimStart_suffix (rev (trimStart s))) as (q & E2).
  exists pre, (rev q).
  rewrite <- rev_app_distr, <- E2, rev_involutive. exact E1.
Qed.

Lemma onlySpaces_app (x y : jsstring) :
  onlySpaces (x ++ y) = onlySpaces x && onlySpaces y.
Proof. apply forallb_app. Qed.

Lemma singleSpaced_tail (c : N) (s : jsstring) :
  singleSpaced (c :: s) = true -> singleSpaced s = true.
Proof.
  destruct s as [|b s]; [reflexivity|]. cbn [singleSpaced].
  intros H. apply andb_true_iff in H. tauto.
Qed.

Lemma singleSpaced_app (x y : jsstring) :
  singleSpaced (x ++ y) = true ->
  singleSpaced x = true /\ singleSpaced y = true.
Proof.
  induction x as [|a x IH]; simpl app; [auto|].
  intros H. pose proof (singleSpaced_tail _ _ H) as T.
  destruct (IH T) as [Hx Hy]. split; [|exact Hy].
  destruct x as [|b x]; [reflexivity|].
  cbn [singleSpaced app] in *. apply andb_true_iff in H.
  destruct H as [H _]. now rewrite H, Hx.
Qed.

Lemma headNonSpace_prefix (x y : jsstring) :
  headNonSpace (x ++ y) = true -> headNonSpace y = true -> headNonSpace x = true.
Proof. destruct x; simpl; auto. Qed.

Lemma trim_tidy (s : jsstring) :
  onlySpaces s = true -> singleSpaced s = true -> tidy (trim s) = true.
Proof.
  intros O S. destruct (trim_infix s) as (pre & post & E).
  rewrite E in O, S.
  rewrite !onlySpaces_app in O.
  apply andb_true_iff in O. destruct O as [_ O].
  apply andb_true_iff in O. destruct O as [O _].
  apply singleSpaced_app in S. destruct S as [_ S].
  apply singleSpaced_app in S. destruct S as [S _].
  unfold tidy. rewrite O, S. cbn [andb].
  unfold trim. rewrite rev_involutive, trimStart_head, andb_true_r.
  destruct (trimStart_suffix (rev (trimStart s))) as (q & E2).
  assert (E3 : trimStart s = rev (trimStart (rev (trimStart s))) ++ rev q).
  { rewrite <- rev_app_distr, <- E2, rev_involutive. reflexivity. }
  pose proof (trimStart_head s) as H. rewrite E3 in H.
  destruct (rev (trimStart (rev (trimStart s)))); [reflexivity | exact H].
Qed.

Lemma lineTerminator_space (c : N) :
  isLineTerminator c = true -> isSpace c = true /\ c <> 32%N.
Proof.
  unfold isLineTerminator. rewrite !orb_true_iff, !N.eqb_eq.
  intros [[[-> | ->] | ->] | ->]; split; (reflexivity || discriminate).
Qed.

Lemma onlySpaces_no_terminator (s : jsstring) :
  onlySpaces s = true -> Forall (fun c => isLineTerminator c = false) s.
Proof.
  unfold onlySpaces. rewrite forallb_forall. intros H.
  apply Forall_forall. intros c Hin. specialize (H c Hin).
  destruct (isLineTerminator c) eqn:E; [|reflexivity].
  apply lineTerminator_space in E. destruct E as [E1 E2].
  rewrite E1 in H. simpl in H. apply N.eqb_eq in H. contradiction.
Qed.

(** X1: whatever the completion, the cleaned text is tidy: its only white
    space is the space U+0020, never twice in a row and never at either
    end; in particular it holds no line terminator. *)
Theorem cleanedResponse_tidy (response : jsstring) :
  tidy (cleanedResponse response) = true
  /\ Forall (fun c => isLineTerminator c = false) (cleanedResponse response).
Proof.
  assert (T : tidy (cleanedResponse response) = true).
  { unfold cleanedResponse.
    destruct (squeeze_shape
                (n := length (replaceAll lineFeed [] 0
                               (replaceAll fence [] 0 response)))
                (replaceAll lineFeed [] 0 (replaceAll fence [] 0 response))
                (le_n _)) as (O & S & _).
    apply trim_tidy; assumption. }
  split; [exact T|].
  apply onlySpaces_no_terminator.
  unfold tidy in T. repeat (apply andb_true_iff in T; destruct T as [T _]).
  exact T.
Qed.

Lemma fence_line_feed (s : jsstring) (n : nat) :
  fence s = Some n -> In 10%N s.
Proof.
  unfold fence.
  destruct s as [|c1 s]; [discriminate|].
  destruct (N.eq_dec c1 96) as [->|N1].
  - destruct s as [|c2 s]; [discriminate|].
    destruct (N.eq_dec c2 96) as [->|N2].
    + destruct s as [|c3 s]; [discriminate|].
      destruct (N.eq_dec c3 96) as [->|N3].
      * destruct (skipn (run isLower s) s) as [|x r] eqn:E; [discriminate|].
        destruct (N.eq_dec x 10) as [->|Nx].
        -- intros _. do 3 right.
           rewrite <- (firstn_skipn (run isLower s) s), E.
           apply in_or_app. right. left. reflexivity.
        -- destruct x as [|p]; [discriminate|].
           repeat (destruct p as [p|p|]; try discriminate); congruence.
      * destruct c3 as [|p]; [discriminate|].
        repeat (destruct p as [p|p|]; try discriminate); congruence.
    + destruct c2 as [|p]; [discriminate|].
      repeat (destruct p as [p|p|]; try discriminate); congruence.
  - destruct (N.eq_dec c1 10) as [->|N10]; [intros _; left; reflexivity|].
    destruct c1 as [|p]; [discriminate|].
    repeat (destruct p as [p|p|]; try discriminate); congruence.
Qed.

Lemma lineFeed_line_feed (s : jsstring) (n : nat) :
  lineFeed s = Some n -> In 10%N s.
Proof.
  unfold lineFeed. destruct s as [|c s]; [discriminate|].
  destruct (N.eq_dec c 10) as [->|Nc]; [intros _; left; reflexivity|].
  destruct c as [|p]; [discriminate|].
  repeat (destruct p as [p|p|]; try discriminate); congruence.
Qed.

(** A pattern that needs a line feed leaves a text without one alone. *)
Lemma replaceAll_without_line_feed (pattern : jsstring -> option nat)
    (by_ s : jsstring) :
  (forall t n, pattern t = Some n -> In 10%N t) ->
  ~ In 10%N s -> replaceAll pattern by_ 0 s = s.
Proof.
  intros Hp. induction s as [|c s IH]; intros Hs; [reflexivity|].
  cbn [replaceAll].
  destruct (pattern (c :: s)) as [n|] eqn:E.
  - apply Hp in E. contradiction.
  - rewrite IH; [reflexivity|]. simpl in Hs. tauto.
Qed.

Lemma squeeze_id (s : jsstring) :
  onlySpaces s = true -> singleSpaced s = true ->
  replaceAll spaces (lit " ") 0 s = s.
Proof.
  induction s as [|c s IH]; intros O S; [reflexivity|].
  pose proof (singleSpaced_tail _ _ S) as S'.
  unfold onlySpaces in O. cbn [forallb] in O.
  apply andb_true_iff in O. destruct O as [Oc O].
  destruct (isSpace c) eqn:E.
  - rewrite (@squeeze_run c s E). simpl in Oc. apply N.eqb_eq in Oc. subst c.
    rewrite trimStart_id, (IH O S'); [reflexivity|].
    destruct s as [|b s]; [reflexivity|].
    cbn [singleSpaced] in S. rewrite E in S. simpl in S. simpl.
    apply andb_true_iff in S. tauto.
  - rewrite (@squeeze_keep c s E), (IH O S'). reflexivity.
Qed.

Lemma onlySpaces_no_line_feed (s : jsstring) :
  onlySpaces s = true -> ~ In 10%N s.
Proof.
  intros O Hin. apply onlySpaces_no_terminator in O.
  rewrite Forall_forall in O. specialize (O _ Hin). discriminate.
Qed.

(** The clean-up changes nothing in a text that is already tidy. *)
Lemma cleanedResponse_id (s : jsstring) :
  tidy s = true -> cleanedResponse s = s.
Proof.
  unfold tidy. rewrite !andb_true_iff. intros [[[O S] H] L].
  pose proof (onlySpaces_no_line_feed _ O) as NL.
  unfold cleanedResponse.
  rewrite (@replaceAll_without_line_feed fence [] s fence_line_feed NL).
  rewrite (@replaceAll_without_line_feed lineFeed [] s lineFeed_line_feed NL).
  rewrite (@squeeze_id s O S). unfold trim.
  rewrite (@trimStart_id s H), (@trimStart_id (rev s) L). apply rev_involutive.
Qed.

(** X2: cleaning a cleaned text changes nothing. *)
Theorem cleanedResponse_idempotent (response : jsstring) :
  cleanedResponse (cleanedResponse response) = cleanedResponse response.
Proof.
  apply cleanedResponse_id.
  destruct (squeeze_shape
              (n := length (replaceAll lineFeed [] 0
                             (replaceAll fence [] 0 response)))
              (replaceAll lineFeed [] 0 (replaceAll fence [] 0 response))
              (le_n _)) as (O & S & _).
  unfold cleanedResponse. apply trim_tidy; assumption.
Qed.

End CleanFacts.

(* ================================================================== *)
(** * The extraction of the JSON object *)
(* ================================================================== *)

Section MatchFacts.

Lemma run_all (p : N -> bool) (s : jsstring) :
  Forall (fun c => p c = true) s -> run p s = length s.
Proof. induction 1 as [|c s H _ IH]; simpl; [|rewrite H, IH]; reflexivity. Qed.

Lemma uptoLast_some (c : N) (s p : jsstring) :
  uptoLast c s = Some p ->
  exists mid post, s = mid ++ c :: post /\ ~ In c post /\ p = mid ++ [c].
Proof.
  revert p; induction s as [|x s IH]; intros p; simpl; [discriminate|].
  destruct (uptoLast c s) as [q|] eqn:E.
  - intros H; injection H as <-.
    destruct (IH q eq_refl) as (mid & post & -> & Hn & ->).
    exists (x :: mid), post. auto.
  - destruct (x =? c)%N eqn:Ex; [|discriminate].
    apply N.eqb_eq in Ex. subst x. intros H; injection H as <-.
    exists [], s. repeat split.
    clear IH. induction s as [|y s IHs]; simpl in *; [tauto|].
    destruct (uptoLast c s); [discriminate|].
    destruct (y =? c)%N eqn:Ey; [discriminate|].
    apply N.eqb_neq in Ey. intros [H|H]; [congruence | now apply IHs].
Qed.

Lemma uptoLast_none (c : N) (s : jsstring) :
  uptoLast c s = None -> ~ In c s.
Proof.
  induction s as [|x s IH]; simpl; [tauto|].
  destruct (uptoLast c s); [discriminate|].
  destruct (x =? c)%N eqn:Ex; [discriminate|].
  apply N.eqb_neq in Ex. intros _ [H|H]; [congruence | now apply IH].
Qed.

(** On one line the pattern takes everything from the first opening brace
    to the last closing brace, and fails only when no closing brace follows
    the first opening one. *)
Lemma jsonMatch_span (s : jsstring) :
  Forall (fun c => isLineTerminator c = false) s ->
  match jsonMatch s with
  | Some jsonStr =>
    exists pre mid post,
      s = pre ++ 123%N :: mid ++ 125%N :: post
      /\ ~ In 123%N pre /\ ~ In 125%N post
      /\ jsonStr = 123%N :: mid ++ [125%N]
  | None => forall pre post, s = pre ++ 123%N :: post -> ~ In 125%N post
  end.
Proof.
  induction 1 as [|c s Hc Hs IH]; cbn [jsonMatch].
  { intros [|? ?] post E; discriminate. }
  assert (R : firstn (run (fun x => negb (isLineTerminator x)) s) s = s).
  { rewrite run_all; [apply firstn_all|].
    eapply Forall_impl; [|exact Hs]. intros a Ha. simpl in Ha. now rewrite Ha. }
  rewrite R.
  destruct (c =? 123)%N eqn:Ec.
  - apply N.eqb_eq in Ec. subst c.
    destruct (uptoLast 125 s) as [p|] eqn:U.
    + apply uptoLast_some in U. destruct U as (mid & post & -> & Hn & ->).
      exists [], mid, post. repeat split; auto.
    + apply uptoLast_none in U.
      destruct (jsonMatch s) as [j|].
      * destruct IH as (pre & mid & post & -> & _ & _ & _).
        exfalso. apply U. apply in_or_app. right. right.
        apply in_or_app. right. left. reflexivity.
      * intros [|x pre] post E; simpl in E.
        -- injection E as E. now subst post.
        -- injection E as _ E. subst s. intros Hin. apply U.
           apply in_or_app. right. now right.
  - apply N.eqb_neq in Ec.
    destruct (jsonMatch s) as [j|].
    + destruct IH as (pre & mid & post & -> & Hp & Hq & ->).
      exists (c :: pre), mid, post. repeat split; auto.
      intros [H|H]; [congruence | contradiction].
    + intros [|x pre] post E; simpl in E.
      * injection E as E _. congruence.
      * injection E as _ E. eapply IH. exact E.
Qed.

(** X3: in the cleaned text the extracted substring runs from the first
    opening brace to the last closing brace; nothing is extracted exactly
    when no closing brace follows the first opening brace. *)
Theorem jsonMatch_cleaned (response : jsstring) :
  match jsonMatch (cleanedResponse response) with
  | Some jsonStr =>
    exists pre mid post,
      cleanedResponse response = pre ++ 123%N :: mid ++ 125%N :: post
      /\ ~ In 123%N pre /\ ~ In 125%N post
      /\ jsonStr = 123%N :: mid ++ [125%N]
  | None =>
    forall pre post,
      cleanedResponse response = pre ++ 123%N :: post -> ~ In 125%N post
  end.
Proof.
  apply jsonMatch_span.
  destruct (squeeze_shape
              (n := length (replaceAll lineFeed [] 0
                             (replaceAll fence [] 0 response)))
              (replaceAll lineFeed [] 0 (replaceAll fence [] 0 response))
              (le_n _)) as (O & S & _).
  apply onlySpaces_no_terminator.
  pose proof (trim_tidy _ O S) as T. unfold tidy in T.
  repeat (apply andb_true_iff in T; destruct T as [T _]). exact T.
Qed.

End MatchFacts.

(* ================================================================== *)
(** * The outcomes of [generateSchema] *)
(* ================================================================== *)

Section OutcomeFacts.

Lemma members_object (fuel : nat) (s : jsstring)
    (acc : list (jsstring * value)) (v : value) (r : jsstring) :
  members fuel s acc = Parsed v r -> exists ms, v = JObject ms.
Proof.
  revert s acc; induction fuel as [|fuel IH]; intros s acc; [discriminate|].
  cbn [members].
  destruct (expect 34 (skipWs s)) as [r0|]; [|discriminate].
  destruct (stringChars r0) as [[k r1]|]; [|discriminate].
  destruct (expect 58 (skipWs r1)) as [r2|]; [|discriminate].
  destruct (value_ fuel r2) as [v0 r3| |]; try discriminate.
  destruct (expect 44 (skipWs r3)) as [r4|]; [apply IH|].
  destruct (expect 125 (skipWs r3)) as [r4|]; [|discriminate].
  intros H; injection H as <- _. eexists; reflexivity.
Qed.

(** A text that opens with a brace parses to an object or not at all. *)
Lemma parse_brace (s : jsstring) (v : value) :
  parse (123%N :: s) = Some v -> exists ms, v = JObject ms.
Proof.
  unfold parse.
  destruct (2 * length (123%N :: s) + 2) as [|fuel]; [discriminate|].
  cbn [value_ skipWs isWs N.eqb Pos.eqb orb].
  change (123 =? 123)%N with true. cbv iota.
  destruct (expect 125 (skipWs s)) as [r'|].
  - destruct (skipWs r'); [|discriminate].
    intros H; injection H as <-. eexists; reflexivity.
  - destruct (members fuel (skipWs s) []) as [v0 r| |] eqn:E; try discriminate.
    apply members_object in E. destruct E as (ms & ->).
    destruct (skipWs r); [|discriminate].
    intros H; injection H as <-. eexists; reflexivity.
Qed.

Lemma jsonMatch_head (s j : jsstring) :
  jsonMatch s = Some j -> exists r, j = 123%N :: r.
Proof.
  induction s as [|c s IH]; cbn [jsonMatch]; [discriminate|].
  destruct (c =? 123)%N eqn:E; [|exact IH].
  apply N.eqb_eq in E. subst c.
  destruct (uptoLast 125 _) as [p|]; [|exact IH].
  intros H; injection H as <-. eexists; reflexivity.
Qed.

(** X4: [generateSchema] is rejected exactly when the completion is missing
    or empty.  Otherwise it is fulfilled, with [mockSchema] when nothing is
    extracted or the extracted text is not JSON, and in every other case
    with the [tables] property of the object the text parses to, which is
    [undefined] when the object has no such property; reading [tables]
    never fails, since what is extracted opens with a brace. *)
Theorem generateSchema_outcomes (response : option jsstring) :
  match generateSchema response with
  | Rejected e =>
    (response = None \/ response = Some [])
    /\ e = ErrorInstance (lit "No response from Groq")
  | Fulfilled result =>
    exists text,
      response = Some text /\ text <> []
      /\ (((jsonMatch (cleanedResponse text) = None
            \/ exists jsonStr,
                 jsonMatch (cleanedResponse text) = Some jsonStr
                 /\ parse jsonStr = None)
           /\ result = Some (schemaValue Mock.mockSchema))
          \/ exists jsonStr members,
               jsonMatch (cleanedResponse text) = Some jsonStr
               /\ parse jsonStr = Some (JObject members)
               /\ result = lookup (lit "tables") members)
  end.
Proof.
  destruct response as [[|c text]|]; cbn [generateSchema]; auto.
  unfold tryBlock.
  destruct (jsonMatch (cleanedResponse (c :: text))) as [j|] eqn:M.
  - destruct (jsonMatch_head _ M) as (r & ->).
    destruct (parse (123%N :: r)) as [v|] eqn:P.
    + destruct (parse_brace _ P) as (ms & ->). cbn [tables].
      exists (c :: text). split; [reflexivity|]. split; [discriminate|].
      right. exists (123%N :: r), ms. auto.
    + exists (c :: text). split; [reflexivity|]. split; [discriminate|].
      left. split; [|reflexivity]. right. exists (123%N :: r). auto.
  - exists (c :: text). split; [reflexivity|]. split; [discriminate|].
    left. auto.
Qed.

End OutcomeFacts.

(* ================================================================== *)
(** * Parsing the text of a value *)
(* ================================================================== *)

Section StringifyFacts.

Lemma hex4_quoted :
  forallb (fun c =>
    match hex4 48 48 (hexChar (c / 16)) (hexChar (c mod 16)) with
    | Some x => (x =? c)%N
    | None => false
    end) (map N.of_nat (seq 0 32)) = true.
Proof. vm_compute. reflexivity. Qed.

Lemma hex4_control (c : N) :
  (c < 32)%N ->
  hex4 48 48 (hexChar (c / 16)) (hexChar (c mod 16)) = Some c.
Proof.
  intros H. pose proof hex4_quoted as Q. rewrite forallb_forall in Q.
  specialize (Q c). 
  assert (Hin : In c (map N.of_nat (seq 0 32))).
  { apply in_map_iff. exists (N.to_nat c). split; [apply N2Nat.id|].
    apply in_seq. lia. }
  specialize (Q Hin).
  destruct (hex4 48 48 (hexChar (c / 16)) (hexChar (c mod 16))) as [x|];
    [|discriminate].
  apply N.eqb_eq in Q. now subst.
Qed.

(** What [quote] writes between the quotes is read back. *)
Lemma stringChars_quoted (s rest : jsstring) :
  stringChars (flat_map quoteChar s ++ 34%N :: rest) = Some (s, rest).
Proof.
  induction s as [|c s IH]; [reflexivity|].
  cbn [flat_map]. rewrite <- app_assoc. unfold quoteChar at 1.
  destruct (c =? 34)%N eqn:E1.
  { apply N.eqb_eq in E1. subst c. cbn. now rewrite IH. }
  destruct (c =? 92)%N eqn:E2.
  { apply N.eqb_eq in E2. subst c. cbn. now rewrite IH. }
  destruct (c =? 8)%N eqn:E3.
  { apply N.eqb_eq in E3. subst c. cbn. now rewrite IH. }
  destruct (c =? 12)%N eqn:E4.
  { apply N.eqb_eq in E4. subst c. cbn. now rewrite IH. }
  destruct (c =? 10)%N eqn:E5.
  { apply N.eqb_eq in E5. subst c. cbn. now rewrite IH. }
  destruct (c =? 13)%N eqn:E6.
  { apply N.eqb_eq in E6. subst c. cbn. now rewrite IH. }
  destruct (c =? 9)%N eqn:E7.
  { apply N.eqb_eq in E7. subst c. cbn. now rewrite IH. }
  destruct (c <? 32)%N eqn:E8.
  - apply N.ltb_lt in E8.
    cbn [app stringChars N.eqb Pos.eqb].
    rewrite (hex4_control E8), IH. reflexivity.
  - cbn [app stringChars]. now rewrite E1, E2, E8, IH.
Qed.

Lemma Reads_string (s : jsstring) : Reads (quote s) (JString s).
Proof.
  split.
  - exists 34%N, (flat_map quoteChar s ++ [34%N]).
    repeat split; discriminate.
  - intros [|fuel] rest L; [lia|].
    unfold quote. cbn [app value_ skipWs isWs N.eqb Pos.eqb orb].
    rewrite <- app_assoc. cbn [app]. now rewrite stringChars_quoted.
Qed.

Lemma skipWs_head (c : N) (s : jsstring) :
  isWs c = false -> skipWs (c :: s) = c :: s.
Proof. intros H. simpl. now rewrite H. Qed.

Lemma join_cons (sep t : jsstring) (ts : list jsstring) :
  ts <> [] -> join sep (t :: ts) = t ++ sep ++ join sep ts.
Proof. destruct ts; [congruence | reflexivity]. Qed.

Lemma elements_reads (ts : list jsstring) (vs : list value) :
  Forall2 Reads ts vs -> ts <> [] ->
  forall acc fuel rest,
    2 * length (join [44%N] ts ++ 93%N :: rest) + 1 < fuel ->
    elements fuel (join [44%N] ts ++ 93%N :: rest) acc
      = Parsed (JArray (acc ++ vs)) rest.
Proof.
  induction 1 as [|t v ts vs [_ R] F IH]; [congruence|].
  intros _ acc [|fuel] rest L; [lia|].
  destruct ts as [|t2 ts].
  - inversion F; subst. cbn [join] in *. cbn [elements].
    rewrite R by lia. cbn. reflexivity.
  - rewrite join_cons in * by discriminate.
    rewrite <- !app_assoc in *. cbn [app] in *.
    cbn [elements]. rewrite R by lia.
    cbn [skipWs isWs N.eqb Pos.eqb orb expect].
    rewrite IH; [now rewrite <- app_assoc | discriminate |].
    rewrite length_app in L. cbn [length] in L. lia.
Qed.

Lemma Reads_array (ts : list jsstring) (vs : list value) :
  Forall2 Reads ts vs ->
  Reads (91%N :: join [44%N] ts ++ [93%N]) (JArray vs).
Proof.
  intros F. split.
  { eexists _, _. repeat split; discriminate. }
  intros [|fuel] rest L; [lia|].
  cbn [app value_ skipWs isWs N.eqb Pos.eqb orb].
  rewrite <- app_assoc. cbn [app].
  destruct ts as [|t ts].
  - inversion F; subst. reflexivity.
  - assert (H : exists c t', join [44%N] (t :: ts) ++ 93%N :: rest
                               = c :: t' /\ isWs c = false /\ c <> 93%N).
    { inversion F as [|? ? ? ? [(c & t' & -> & W & N1 & _) _] _]; subst.
      destruct ts; cbn [join app]; eexists _, _; eauto. }
    destruct H as (c & t' & E & W & N1).
    rewrite E, (@skipWs_head c t' W). cbn [expect].
    apply N.eqb_neq in N1. rewrite N1. rewrite <- E.
    apply (elements_reads F); [discriminate|].
    cbn [app length] in L. rewrite <- app_assoc in L.
    rewrite !length_app in L |- *. cbn [app length] in L |- *. lia.
Qed.

Lemma setMember_fresh (k : jsstring) (v : value)
    (acc : list (jsstring * value)) :
  ~ In k (map fst acc) -> setMember k v acc = acc ++ [(k, v)].
Proof.
  induction acc as [|[k' v'] acc IH]; simpl; [reflexivity|].
  intros H. destruct (Js.eqb k' k) eqn:E.
  - apply eqb_eq in E. tauto.
  - rewrite IH; tauto.
Qed.

Lemma members_reads (txt : value -> jsstring)
    (ms : list (jsstring * value)) :
  Forall (fun kv => Reads (txt (snd kv)) (snd kv)) ms -> ms <> [] ->
  forall acc fuel rest,
    NoDup (map fst acc ++ map fst ms) ->
    2 * length (join [44%N]
                  (map (fun kv => quote (fst kv) ++ 58%N :: txt (snd kv)) ms)
                ++ 125%N :: rest) + 1 < fuel ->
    members fuel
      (join [44%N]
         (map (fun kv => quote (fst kv) ++ 58%N :: txt (snd kv)) ms)
       ++ 125%N :: rest) acc
    = Parsed (JObject (acc ++ ms)) rest.
Proof.
  induction 1 as [|[k v] ms [_ R] F IH]; [congruence|].
  intros _ acc [|fuel] rest ND L; [lia|].
  assert (Fresh : ~ In k (map fst acc)).
  { intros Hin. cbn [map fst] in ND.
    apply NoDup_remove_2 in ND. apply ND. apply in_or_app. now left. }
  assert (ND' : NoDup (map fst (acc ++ [(k, v)]) ++ map fst ms)).
  { rewrite map_app, <- app_assoc. exact ND. }
  cbn [map fst snd] in *.
  destruct ms as [|m2 ms].
  - cbn [map join] in *. unfold quote in *. cbn [app] in *.
    rewrite <- !app_assoc in *. cbn [app] in *.
    cbn [members skipWs isWs N.eqb Pos.eqb orb expect].
    rewrite stringChars_quoted.
    cbn [skipWs isWs N.eqb Pos.eqb orb expect].
    cbn [length] in L. rewrite length_app in L. cbn [length] in L.
    rewrite R by lia.
    cbn [skipWs isWs N.eqb Pos.eqb orb expect].
    now rewrite (@setMember_fresh k v acc Fresh).
  - cbn [map] in *. rewrite join_cons in * by discriminate.
    unfold quote at 1. unfold quote at 1 in L.
    cbn [app] in *.
    rewrite <- ?app_assoc in *. cbn [app] in *.
    rewrite <- ?app_assoc in *. cbn [app] in *.
    cbn [members skipWs isWs N.eqb Pos.eqb orb expect].
    rewrite stringChars_quoted.
    cbn [skipWs isWs N.eqb Pos.eqb orb expect].
    cbn [length] in L. rewrite length_app in L. cbn [length] in L.
    rewrite R by lia.
    cbn [skipWs isWs N.eqb Pos.eqb orb expect].
    rewrite (@setMember_fresh k v acc Fresh).
    rewrite IH; [now rewrite <- app_assoc | discriminate | exact ND' |].
    rewrite length_app in L. cbn [length] in L. lia.
Qed.

Lemma Reads_object (txt : value -> jsstring)
    (ms : list (jsstring * value)) :
  Forall (fun kv => Reads (txt (snd kv)) (snd kv)) ms ->
  NoDup (map fst ms) ->
  Reads (123%N
           :: join [44%N]
                (map (fun kv => quote (fst kv) ++ 58%N :: txt (snd kv)) ms)
           ++ [125%N])
        (JObject ms).
Proof.
  intros F ND. split.
  { eexists _, _. repeat split; discriminate. }
  intros [|fuel] rest L; [lia|].
  cbn [app value_ skipWs isWs N.eqb Pos.eqb orb].
  rewrite <- app_assoc. cbn [app].
  destruct ms as [|[k v] ms].
  - reflexivity.
  - assert (H : exists t',
      join [44%N]
        (map (fun kv => quote (fst kv) ++ 58%N :: txt (snd kv)) ((k, v) :: ms))
      ++ 125%N :: rest = 34%N :: t').
    { cbn [map fst snd]. unfold quote at 1.
      destruct (map _ ms); cbn [join app]; eexists; reflexivity. }
    destruct H as (t' & E). rewrite E.
    cbn [skipWs isWs N.eqb Pos.eqb orb expect]. rewrite <- E.
    apply (@members_reads txt ((k, v) :: ms) F); [discriminate | exact ND |].
    cbn [app length] in L. rewrite <- app_assoc in L.
    rewrite !length_app in L |- *. cbn [app length] in L |- *. lia.
Qed.

Lemma distinct_NoDup (ks : list jsstring) : distinct ks = true -> NoDup ks.
Proof.
  induction ks as [|k ks IH]; simpl; [constructor|].
  rewrite andb_true_iff, negb_true_iff. intros [H D].
  constructor; [|now apply IH].
  intros Hin.
  assert (E : existsb (Js.eqb k) ks = true).
  { apply existsb_exists. exists k. split; [exact Hin | apply eqb_refl]. }
  congruence.
Qed.

Lemma Forall2_map_self {A B : Type} (R : B -> A -> Prop) (f : A -> B)
    (l : list A) :
  Forall (fun x => R (f x) x) l -> Forall2 R (map f l) l.
Proof. induction 1; simpl; constructor; auto. Qed.

Lemma size_in (x : value) (l : list value) :
  In x l -> size x <= list_sum (map size l).
Proof.
  induction l as [|y l IH]; simpl; [tauto|].
  intros [->|H]; [lia|]. apply IH in H. lia.
Qed.

Lemma size_in_member (kv : jsstring * value)
    (ms : list (jsstring * value)) :
  In kv ms -> size (snd kv) <= list_sum (map (fun m => size (snd m)) ms).
Proof.
  induction ms as [|m ms IH]; simpl; [tauto|].
  intros [->|H]; [lia|]. apply IH in H. lia.
Qed.

(** The parser reads back the text of every plain value. *)
Lemma stringify_reads (n : nat) (v : value) :
  size v <= n -> plain v = true -> Reads (stringify v) v.
Proof.
  revert v; induction n as [|n IH]; intros v Hs Hp.
  { destruct v; simpl in Hs; lia. }
  destruct v as [|[|]|lexeme|s|l|ms]; cbn [stringify].
  - split; [eexists _, _; repeat split; discriminate|].
    intros [|fuel] rest L; [lia|]. reflexivity.
  - split; [eexists _, _; repeat split; discriminate|].
    intros [|fuel] rest L; [lia|]. reflexivity.
  - split; [eexists _, _; repeat split; discriminate|].
    intros [|fuel] rest L; [lia|]. reflexivity.
  - discriminate.
  - apply Reads_string.
  - apply Reads_array. apply Forall2_map_self. apply Forall_forall.
    intros x Hin. cbn [plain] in Hp. rewrite forallb_forall in Hp.
    apply IH; [|now apply Hp].
    pose proof (@size_in x l Hin). cbn [size] in Hs. lia.
  - cbn [plain] in Hp. apply andb_true_iff in Hp. destruct Hp as [D Hp].
    apply (@Reads_object stringify ms); [|now apply distinct_NoDup].
    apply Forall_forall. intros kv Hin. rewrite forallb_forall in Hp.
    apply IH; [|now apply Hp].
    pose proof (@size_in_member kv ms Hin). cbn [size] in Hs. lia.
Qed.

Lemma parse_stringify (v : value) :
  plain v = true -> parse (stringify v) = Some v.
Proof.
  intros Hp. destruct (@stringify_reads (size v) v (le_n (size v)) Hp) as [_ R].
  unfold parse.
  rewrite <- (app_nil_r (stringify v)) at 2.
  rewrite R; [reflexivity|]. rewrite app_nil_r. lia.
Qed.

Lemma forallb_map_all {A B : Type} (p : B -> bool) (f : A -> B)
    (l : list A) :
  (forall x, p (f x) = true) -> forallb p (map f l) = true.
Proof. intros H. induction l; simpl; [|rewrite H]; auto. Qed.

Lemma plain_fieldValue (f : SchemaField.t) : plain (fieldValue f) = true.
Proof.
  unfold fieldValue, strings. cbn.
  rewrite forallb_map_all by reflexivity. reflexivity.
Qed.

Lemma plain_tableValue (t : TableSchema.t) : plain (tableValue t) = true.
Proof.
  unfold tableValue, strings. cbn -[fieldValue].
  rewrite !(forallb_map_all plain JString) by reflexivity.
  rewrite (forallb_map_all plain fieldValue) by apply plain_fieldValue.
  reflexivity.
Qed.

Lemma plain_completion (schema : list TableSchema.t) :
  plain (JObject [(lit "tables", schemaValue schema)]) = true.
Proof.
  unfold schemaValue. cbn -[tableValue].
  rewrite (forallb_map_all plain tableValue) by apply plain_tableValue.
  reflexivity.
Qed.

Lemma uptoLast_last (c : N) (s : jsstring) :
  uptoLast c (s ++ [c]) = Some (s ++ [c]).
Proof.
  induction s as [|x s IH]; simpl; [now rewrite N.eqb_refl|]. now rewrite IH.
Qed.

Lemma generateSchema_text (text : jsstring) :
  text <> [] ->
  generateSchema (Some text)
    = match tryBlock text with
      | inl result => Fulfilled result
      | inr _ => fallback
      end.
Proof. destruct text; [congruence | reflexivity]. Qed.

(** The text of a completion is tidy when its white space is, and it is
    read back whole. *)
Lemma completion_read (schema : list TableSchema.t) :
  onlySpaces (completionOf schema) = true ->
  singleSpaced (completionOf schema) = true ->
  tidy (completionOf schema) = true
  /\ generateSchema (Some (completionOf schema))
     = Fulfilled (Some (schemaValue schema)).
Proof.
  intros O S.
  assert (Shape : exists body,
            completionOf schema = 123%N :: body ++ [125%N]).
  { unfold completionOf. cbn [stringify]. eexists; reflexivity. }
  destruct Shape as (body & E).
  assert (T : tidy (completionOf schema) = true).
  { unfold tidy. rewrite O, S, E. cbn [andb headNonSpace].
    change (123%N :: body ++ [125%N]) with ((123%N :: body) ++ [125%N]).
    rewrite rev_app_distr. reflexivity. }
  split; [exact T|].
  assert (M : jsonMatch (completionOf schema) = Some (completionOf schema)).
  { rewrite E at 1. cbn [jsonMatch N.eqb Pos.eqb].
    rewrite run_all, firstn_all, uptoLast_last; [now rewrite E|].
    apply onlySpaces_no_terminator in O. rewrite E in O.
    inversion O as [|? ? _ O']. eapply Forall_impl; [|exact O'].
    intros a Ha. simpl in Ha. now rewrite Ha. }
  assert (P : parse (completionOf schema)
              = Some (JObject [(lit "tables", schemaValue schema)])).
  { apply parse_stringify, plain_completion. }
  rewrite generateSchema_text by (rewrite E; discriminate).
  unfold tryBlock.
  rewrite (@cleanedResponse_id (completionOf schema) T), M, P.
  reflexivity.
Qed.

(** X5: a completion that is the plain JSON text of an object whose
    [tables] property is a schema, with no white space but single spaces
    inside its strings, gives that schema back, and [main] saves its SQL:
    nothing is lost between the text and the rendering. *)
Theorem generateSchema_round_trip (schema : list TableSchema.t) :
  onlySpaces (completionOf schema) = true ->
  singleSpaced (completionOf schema) = true ->
  generateSchema (Some (completionOf schema))
    = Fulfilled (Some (schemaValue schema))
  /\ main (Some (completionOf schema)) = Saved (Render.generateSQL schema).
Proof.
  intros O S. destruct (completion_read schema O S) as [_ G].
  split; [exact G|].
  unfold main. rewrite G, asSchema_schemaValue. reflexivity.
Qed.

Lemma generateSchema_round_trip_witness :
  onlySpaces (completionOf Mock.mockSchema) = true
  /\ singleSpaced (completionOf Mock.mockSchema) = true
  /\ main (Some (completionOf Mock.mockSchema))
     = Saved (Render.generateSQL Mock.mockSchema).
Proof.
  assert (O : onlySpaces (completionOf Mock.mockSchema) = true)
    by (vm_compute; reflexivity).
  assert (S : singleSpaced (completionOf Mock.mockSchema) = true)
    by (vm_compute; reflexivity).
  split; [exact O|]. split; [exact S|].
  exact (proj2 (generateSchema_round_trip Mock.mockSchema O S)).
Defined.

End StringifyFacts.

(* ================================================================== *)
(** * Code fences *)
(* ================================================================== *)

Section FenceFacts.

Lemma run_prefix (p : N -> bool) (w : jsstring) (x : N) (tail : jsstring) :
  Forall (fun c => p c = true) w -> p x = false ->
  run p (w ++ x :: tail) = length w.
Proof.
  induction 1 as [|c w H _ IH]; intros Hx; simpl;
    [now rewrite Hx | rewrite H, IH; auto].
Qed.

Lemma replaceAll_match (pattern : jsstring -> option nat)
    (by_ : jsstring) (c : N) (s : jsstring) (k : nat) :
  pattern (c :: s) = Some (S k) ->
  replaceAll pattern by_ 0 (c :: s)
    = by_ ++ replaceAll pattern by_ 0 (skipn k s).
Proof.
  intros H. cbn [replaceAll]. rewrite H. now rewrite replaceAll_skip.
Qed.

Lemma fence_at_opening (tag rest : jsstring) :
  Forall (fun c => isLower c = true) tag ->
  fence (96%N :: 96%N :: 96%N :: tag ++ LF :: rest)
    = Some (S (2 + length tag + 1)).
Proof.
  intros Htag. unfold fence.
  rewrite (@run_prefix isLower tag LF rest Htag eq_refl).
  rewrite skipn_app, skipn_all, Nat.sub_diag. reflexivity.
Qed.

(** An opening fence at the very start goes, with its tag. *)
Lemma fence_opening (tag rest : jsstring) :
  Forall (fun c => isLower c = true) tag ->
  replaceAll fence [] 0 (lit "```" ++ tag ++ LF :: rest)
    = replaceAll fence [] 0 rest.
Proof.
  intros Htag.
  change (lit "```" ++ tag ++ LF :: rest)
    with (96%N :: 96%N :: 96%N :: tag ++ LF :: rest).
  rewrite (@replaceAll_match fence [] 96%N (96%N :: 96%N :: tag ++ LF :: rest)
             (2 + length tag + 1) (@fence_at_opening tag rest Htag)).
  replace (2 + length tag + 1) with (S (S (length tag + 1))) by lia.
  cbn [app skipn]. rewrite skipn_app.
  replace (length tag + 1 - length tag) with 1 by lia.
  rewrite (skipn_all2 tag) by lia. reflexivity.
Qed.

(** Where the pattern of the fences can match. *)
Lemma fence_inv (s : jsstring) (n : nat) :
  fence s = Some n ->
  (exists r tl, s = 96%N :: 96%N :: 96%N :: r
                /\ skipn (run isLower r) r = 10%N :: tl)
  \/ exists tl, s = 10%N :: tl.
Proof.
  unfold fence.
  destruct s as [|c1 s]; [discriminate|].
  destruct (N.eq_dec c1 96) as [->|N1].
  - destruct s as [|c2 s]; [discriminate|].
    destruct (N.eq_dec c2 96) as [->|N2].
    + destruct s as [|c3 s]; [discriminate|].
      destruct (N.eq_dec c3 96) as [->|N3].
      * destruct (skipn (run isLower s) s) as [|x r] eqn:E; [discriminate|].
        destruct (N.eq_dec x 10) as [->|Nx].
        -- intros _. left. exists s, r. auto.
        -- destruct x as [|p]; [discriminate|].
           repeat (destruct p as [p|p|]; try discriminate); congruence.
      * destruct c3 as [|p]; [discriminate|].
        repeat (destruct p as [p|p|]; try discriminate); congruence.
    + destruct c2 as [|p]; [discriminate|].
      repeat (destruct p as [p|p|]; try discriminate); congruence.
  - destruct (N.eq_dec c1 10) as [->|N10]; [intros _; right; eauto|].
    destruct c1 as [|p]; [discriminate|].
    repeat (destruct p as [p|p|]; try discriminate); congruence.
Qed.

Lemma skipn_run_head (p : N -> bool) (w : jsstring) (x : N)
    (tail : jsstring) :
  p x = false ->
  exists y rest,
    skipn (run p (w ++ x :: tail)) (w ++ x :: tail) = y :: rest
    /\ In y (w ++ [x]).
Proof.
  intros Hx. induction w as [|c w (y & rest & E & Hin)]; simpl.
  - rewrite Hx. exists x, tail. auto.
  - destruct (p c); simpl.
    + exists y, rest. auto.
    + exists c, (w ++ x :: tail). auto.
Qed.

(** No fence is found before a character that is neither a line feed, nor
    a backquote, nor a lower-case letter, in a text without line feed. *)
Lemma fence_none (w : jsstring) (x : N) (tail : jsstring) :
  ~ In 10%N w -> isLower x = false -> x <> 10%N -> x <> 96%N ->
  fence (w ++ x :: tail) = None.
Proof.
  intros Hw Hl H10 H96.
  destruct (fence (w ++ x :: tail)) as [n|] eqn:F; [|reflexivity].
  exfalso. apply fence_inv in F.
  destruct F as [(r & tl & E & S)|(tl & E)].
  - destruct w as [|c1 [|c2 [|c3 w]]]; simpl in E;
      try (injection E as E; congruence).
    injection E as -> -> -> <-.
    destruct (@skipn_run_head isLower w x tail Hl) as (y & rest & E' & Hin).
    rewrite S in E'. injection E' as <- _.
    apply in_app_or in Hin. simpl in Hin, Hw. intuition congruence.
  - destruct w as [|c w]; simpl in E; injection E as E _;
      [congruence | simpl in Hw; intuition congruence].
Qed.

Lemma replaceAll_miss (pattern : jsstring -> option nat)
    (by_ : jsstring) (c : N) (s : jsstring) :
  pattern (c :: s) = None ->
  replaceAll pattern by_ 0 (c :: s) = c :: replaceAll pattern by_ 0 s.
Proof. intros H. cbn [replaceAll]. now rewrite H. Qed.

(** A closing fence behind such a text goes, and the text stays. *)
Lemma fence_closing (w : jsstring) (x : N) :
  ~ In 10%N w -> isLower x = false -> x <> 10%N -> x <> 96%N ->
  replaceAll fence [] 0 ((w ++ [x]) ++ LF :: lit "```") = w ++ [x].
Proof.
  intros Hw Hl H10 H96. rewrite <- app_assoc. cbn [app].
  induction w as [|c w IH]; cbn [app].
  - rewrite replaceAll_miss
      by (apply (@fence_none [] x (LF :: lit "```")); auto).
    reflexivity.
  - rewrite replaceAll_miss
      by (apply (@fence_none (c :: w) x (LF :: lit "```")); auto).
    rewrite IH; [reflexivity|]. simpl in Hw. tauto.
Qed.

Lemma generateSchema_cleaned (text1 text2 : jsstring) :
  text1 <> [] -> text2 <> [] ->
  cleanedResponse text1 = cleanedResponse text2 ->
  generateSchema (Some text1) = generateSchema (Some text2).
Proof.
  intros H1 H2 E. rewrite !generateSchema_text by assumption.
  unfold tryBlock. now rewrite E.
Qed.

(** X6: the same completion inside a code fence with any lower-case
    language tag gives the same schema: an opening fence at the start of
    the text and a closing fence at its end are removed whole. *)
Theorem generateSchema_fenced (tag : jsstring) (schema : list TableSchema.t) :
  Forall (fun c => isLower c = true) tag ->
  onlySpaces (completionOf schema) = true ->
  singleSpaced (completionOf schema) = true ->
  cleanedResponse (fenced tag (completionOf schema)) = completionOf schema
  /\ generateSchema (Some (fenced tag (completionOf schema)))
     = Fulfilled (Some (schemaValue schema)).
Proof.
  intros Htag O S.
  destruct (completion_read schema O S) as [T G].
  assert (Shape : exists body,
            completionOf schema = (123%N :: body) ++ [125%N]).
  { unfold completionOf. cbn [stringify]. eexists; reflexivity. }
  destruct Shape as (body & E).
  pose proof (@onlySpaces_no_line_feed (completionOf schema) O) as NL.
  assert (C : cleanedResponse (fenced tag (completionOf schema))
              = completionOf schema).
  { rewrite <- (@cleanedResponse_id (completionOf schema) T) at 2.
    unfold cleanedResponse, fenced. do 3 f_equal.
    cbn [app]. rewrite fence_opening by exact Htag.
    rewrite (@replaceAll_without_line_feed fence [] (completionOf schema)
               fence_line_feed NL).
    rewrite E. rewrite E in NL.
    apply fence_closing; try (reflexivity || discriminate).
    intros Hin. apply NL. apply in_or_app. now left. }
  split; [exact C|].
  rewrite <- G. apply generateSchema_cleaned.
  - unfold fenced. discriminate.
  - rewrite E. discriminate.
  - rewrite C. symmetry. apply cleanedResponse_id, T.
Qed.

Lemma generateSchema_fenced_witness :
  Forall (fun c => isLower c = true) (lit "json")
  /\ generateSchema (Some (fenced (lit "json") (completionOf Mock.mockSchema)))
     = Fulfilled (Some (schemaValue Mock.mockSchema)).
Proof.
  assert (L : Forall (fun c => isLower c = true) (lit "json"))
    by (repeat constructor).
  split; [exact L|].
  apply (proj2 (@generateSchema_fenced (lit "json") Mock.mockSchema L
                  ltac:(vm_compute; reflexivity)
                  ltac:(vm_compute; reflexivity))).
Defined.

End FenceFacts.

(* ================================================================== *)
(** * More on the SQL renderer *)
(* ================================================================== *)

Section RenderMore.

Import Render.

Lemma statements_flat (schema : list TableSchema.t) :
  statements schema = flat_map block schema.
Proof. unfold statements. now rewrite fold_renderTable. Qed.

Lemma join_app (sep : jsstring) (p1 p2 : list jsstring) :
  p1 <> [] -> p2 <> [] ->
  join sep (p1 ++ p2) = join sep p1 ++ sep ++ join sep p2.
Proof.
  intros H1 H2. induction p1 as [|a p1 IH]; [congruence|].
  destruct p1 as [|b p1].
  - destruct p2; [congruence | reflexivity].
  - change ((a :: b :: p1) ++ p2) with (a :: (b :: p1) ++ p2).
    rewrite (@join_cons sep a ((b :: p1) ++ p2)) by discriminate.
    rewrite IH by discriminate.
    rewrite (@join_cons sep a (b :: p1)) by discriminate.
    now rewrite <- !app_assoc.
Qed.

Lemma statements_nonempty (schema : list TableSchema.t) :
  schema <> [] -> statements schema <> [].
Proof.
  rewrite statements_flat. destruct schema; [congruence|]. discriminate.
Qed.

(** X7: rendering is done table by table: the SQL of two schemas put one
    after the other is the SQL of the first, a blank line, and the SQL of
    the second. *)
Theorem generateSQL_app (schema1 schema2 : list TableSchema.t) :
  schema1 <> [] -> schema2 <> [] ->
  generateSQL (schema1 ++ schema2)
    = generateSQL schema1 ++ [LF; LF] ++ generateSQL schema2.
Proof.
  intros H1 H2. unfold generateSQL.
  rewrite <- join_app by now apply statements_nonempty.
  now rewrite !statements_flat, flat_map_app.
Qed.

Lemma generateSQL_app_witness :
  [Mock.users] <> [] /\ [Mock.posts] <> []
  /\ generateSQL ([Mock.users] ++ [Mock.posts])
     = generateSQL [Mock.users] ++ [LF; LF] ++ generateSQL [Mock.posts].
Proof.
  split; [discriminate|]. split; [discriminate|].
  apply generateSQL_app; discriminate.
Defined.

Lemma fieldLine_bare (f : SchemaField.t) : fieldLine (bareField f) = fieldLine f.
Proof. reflexivity. Qed.

Lemma block_bare (t : TableSchema.t) : block (bareTable t) = block t.
Proof.
  unfold block, createTable, bareTable. cbn [TableSchema.name
    TableSchema.fields TableSchema.indexes].
  rewrite map_map. reflexivity.
Qed.

Lemma generateSQL_bare (schema : list TableSchema.t) :
  generateSQL (map bareTable schema) = generateSQL schema.
Proof.
  unfold generateSQL. rewrite !statements_flat. f_equal.
  induction schema as [|t schema IH]; [reflexivity|].
  cbn [map flat_map]. now rewrite block_bare, IH.
Qed.

(** X8: the descriptions of the fields and the relationships of the tables
    never reach the SQL: two schemas that differ in nothing else are
    rendered to the same text. *)
Theorem generateSQL_ignores (schema1 schema2 : list TableSchema.t) :
  map bareTable schema1 = map bareTable schema2 ->
  generateSQL schema1 = generateSQL schema2.
Proof.
  intros E. rewrite <- (generateSQL_bare schema1), E. apply generateSQL_bare.
Qed.

Lemma generateSQL_ignores_witness :
  map bareTable Mock.mockSchema
    = map bareTable
        [ Mock.users;
          TableSchema.mk (lit "posts") (TableSchema.fields Mock.posts) []
                         (TableSchema.indexes Mock.posts) ]
  /\ generateSQL Mock.mockSchema
     = generateSQL
        [ Mock.users;
          TableSchema.mk (lit "posts") (TableSchema.fields Mock.posts) []
                         (TableSchema.indexes Mock.posts) ].
Proof.
  split; [reflexivity|]. apply generateSQL_ignores. reflexivity.
Defined.

Lemma createTable_opens (t : TableSchema.t) :
  isCreateTable (createTable t) = true.
Proof. reflexivity. Qed.

(** X9: the array of statements holds at least one CREATE TABLE statement
    per table, and exactly one per table when no index string opens like
    one. *)
Theorem statements_create_tables (schema : list TableSchema.t) :
  length schema <= length (filter isCreateTable (statements schema))
  /\ (forallb (fun index => negb (isCreateTable index))
              (flat_map TableSchema.indexes schema) = true ->
      length (filter isCreateTable (statements schema)) = length schema).
Proof.
  rewrite statements_flat.
  induction schema as [|t schema [IH1 IH2]]; [split; auto|].
  cbn [flat_map]. rewrite filter_app. unfold block at 1 3. cbn [filter].
  rewrite createTable_opens. rewrite !length_app. cbn [length].
  split; [lia|].
  rewrite forallb_app, andb_true_iff. intros [Hi Hs].
  rewrite (IH2 Hs).
  assert (E : filter isCreateTable (TableSchema.indexes t) = []).
  { clear - Hi. induction (TableSchema.indexes t) as [|i l IH];
      [reflexivity|].
    cbn [forallb] in Hi. apply andb_true_iff in Hi. destruct Hi as [H1 H2].
    cbn [filter]. apply negb_true_iff in H1. rewrite H1. now apply IH. }
  rewrite E. reflexivity.
Qed.

Lemma statements_create_tables_witness :
  forallb (fun index => negb (isCreateTable index))
          (flat_map TableSchema.indexes Mock.mockSchema) = true
  /\ length (filter isCreateTable (statements Mock.mockSchema)) = 2.
Proof.
  split; [reflexivity|].
  exact (proj2 (statements_create_tables Mock.mockSchema) eq_refl).
Defined.

End RenderMore.

(* ================================================================== *)
(** * The closures of the runners *)
(* ================================================================== *)

Section ClosureFacts.

Import Benchmark.
Import BenchmarkMain.

Variable World : Type.
Variable dateNow : World -> float * World.

Lemma forAwait_app {A : Type} (f : A -> Action World) (l1 l2 : list A) (w : World) :
  forAwait f (l1 ++ l2) w = thenDo (forAwait f l1) (forAwait f l2) w.
Proof.
  revert w; induction l1 as [|x l1 IH]; intros w; cbn [app forAwait].
  - unfold thenDo. reflexivity.
  - unfold thenDo in *. destruct (f x w) as [[u|e] w1]; [|reflexivity].
    apply IH.
Qed.

(** X13: the loop of awaited inserts stops at the first one that is
    rejected: the loop is rejected with that error, in the world that
    insert left, and no later item is touched. *)
Theorem forAwait_stops {A : Type} (f : A -> Action World)
    (before after_ : list A) (item : A) (w w1 w2 : World) (e : thrown) :
  forAwait f before w = (Fulfilled tt, w1) ->
  f item w1 = (Rejected e, w2) ->
  forAwait f (before ++ item :: after_) w = (Rejected e, w2).
Proof.
  intros H1 H2. rewrite forAwait_app. unfold thenDo at 1. rewrite H1.
  cbn [forAwait]. unfold thenDo. now rewrite H2.
Qed.

(** X14: a reply of Supabase that carries an error is timed as a failure,
    though its promise was fulfilled: the error is thrown by the closure,
    and the entry takes its message, or [Unknown error] when it is not an
    [Error]. *)
Theorem measureOperation_reply (database operation : jsstring)
    (call : Reply World) (results : list BenchmarkResult)
    (w w1 w2 w3 : World) (start now : float) (err : thrown) :
  dateNow w = (start, w1) ->
  call w1 = (Fulfilled (Some err), w2) ->
  dateNow w2 = (now, w3) ->
  measureOperation dateNow database operation (throwIfError call) results w
  = (Fulfilled tt,
     results ++ [ mkResult database operation (PrimFloat.sub now start)
                    0%float false
                    (Some match err with
                          | ErrorInstance message => message
                          | NotAnError _ => lit "Unknown error"
                          end) ],
     w3).
Proof.
  intros H0 H1 H2. unfold measureOperation, throwIfError.
  rewrite H0, H1, H2. reflexivity.
Qed.

Variable Row : Type.
Variable clients : Clients World Row.

(** X15: in the cold-start measurement of MongoDB, a query that fails on
    the fresh connection leaves that connection open: [close] is not
    awaited, and the run goes on from the world the query left. *)
Theorem runColdStartTest_leaves_open (results : list BenchmarkResult)
    (w w0 w1 w2 w3 w4 w5 w6 : World) (t0 t1 t2 t3 : float)
    (neon : settled unit) (e : thrown) :
  dateNow w = (t0, w0) ->
  neonColdSelect clients w0 = (neon, w1) ->
  dateNow w1 = (t1, w2) ->
  dateNow w2 = (t2, w3) ->
  mongoColdConnect clients w3 = (Fulfilled tt, w4) ->
  mongoColdFindOne clients w4 = (Rejected e, w5) ->
  dateNow w5 = (t3, w6) ->
  exists r1 r2,
    runColdStartTest dateNow clients results w
      = (Fulfilled tt, results ++ [r1; r2], w6)
    /\ success r2 = false
    /\ duration r2 = PrimFloat.sub t3 t2.
Proof.
  intros H0 H1 H2 H3 H4 H5 H6.
  unfold runColdStartTest, andThen, measureOperation, thenDo.
  rewrite H0, H1. destruct neon as [u|en]; rewrite H2, H3, H4, H5, H6;
    eexists _, _; rewrite <- app_assoc; repeat split.
Qed.

End ClosureFacts.

Lemma forAwait_stops_witness :
  Benchmark.forAwait
    (fun i : nat => if Nat.eqb i 2
                    then Benchmark.after 1 (Rejected (ErrorInstance (lit "duplicate key")))
                    else Benchmark.after 1 (Fulfilled tt))
    ([0; 1] ++ 2 :: [3; 4]) 0%float
  = (Rejected (ErrorInstance (lit "duplicate key")), 3%float).
Proof.
  apply (@forAwait_stops Benchmark.Clock nat
           (fun i : nat => if Nat.eqb i 2
              then Benchmark.after 1 (Rejected (ErrorInstance (lit "duplicate key")))
              else Benchmark.after 1 (Fulfilled tt))
           [0; 1] [3; 4] 2 0%float 2%float 3%float
           (ErrorInstance (lit "duplicate key"))); reflexivity.
Defined.

Lemma measureOperation_reply_witness :
  Benchmark.measureOperation Benchmark.readClock (lit "Supabase")
    (lit "Write 10k rows")
    (Benchmark.throwIfError
       (fun t => (Fulfilled (Some (NotAnError None)), PrimFloat.add t 9)))
    [] 1%float
  = (Fulfilled tt,
     [] ++ [ Benchmark.mkResult (lit "Supabase") (lit "Write 10k rows")
               (PrimFloat.sub 10 1) 0 false (Some (lit "Unknown error")) ],
     10%float).
Proof.
  apply (@measureOperation_reply Benchmark.Clock Benchmark.readClock
           (lit "Supabase") (lit "Write 10k rows")
           (fun t => (Fulfilled (Some (NotAnError None)), PrimFloat.add t 9))
           [] 1%float 1%float 10%float 10%float 1%float 10%float
           (NotAnError None)); reflexivity.
Defined.

Lemma runColdStartTest_leaves_open_witness :
  exists r1 r2,
    Benchmark.runColdStartTest Benchmark.readClock
      {| Benchmark.makeRow := fun (i : nat) (t : Benchmark.Clock) => (i, t);
         Benchmark.neonInsert := fun _ => BenchmarkMain.quiet;
         Benchmark.supabaseInsert := fun _ t => (Fulfilled None, t);
         Benchmark.mongoInsertMany := fun _ => BenchmarkMain.quiet;
         Benchmark.neonSelect := BenchmarkMain.quiet;
         Benchmark.supabaseSelect := fun t => (Fulfilled None, t);
         Benchmark.mongoFind := BenchmarkMain.quiet;
         Benchmark.neonJoin := BenchmarkMain.quiet;
         Benchmark.supabaseJoin := fun t => (Fulfilled None, t);
         Benchmark.mongoAggregate := BenchmarkMain.quiet;
         Benchmark.neonColdSelect := BenchmarkMain.quiet;
         Benchmark.mongoColdConnect := BenchmarkMain.quiet;
         Benchmark.mongoColdFindOne := BenchmarkMain.mongo true;
         Benchmark.mongoColdClose := Benchmark.after 100 (Fulfilled tt) |}
      [] 0%float
    = (Fulfilled tt, [] ++ [r1; r2], 3%float)
    /\ Benchmark.success r2 = false
    /\ Benchmark.duration r2 = PrimFloat.sub 3 1.
Proof.
  eapply (@runColdStartTest_leaves_open Benchmark.Clock Benchmark.readClock
            nat _ [] 0%float 0%float 1%float 1%float 1%float 2%float
            3%float 3%float 0%float 1%float 1%float 3%float);
    reflexivity.
Defined.

(* ================================================================== *)
(** * A whole run and its report *)
(* ================================================================== *)

Section ReportFacts.

Import Benchmark.
Import BenchmarkMain.

Lemma firstSeen_distinct (ks : list jsstring) : NoDup ks -> firstSeen ks = ks.
Proof.
  induction ks as [|k ks IH] using rev_ind; intros ND; [reflexivity|].
  rewrite firstSeen_snoc.
  assert (ND' : NoDup ks /\ ~ In k ks).
  { apply NoDup_remove in ND. rewrite app_nil_r in ND. exact ND. }
  destruct ND' as [ND' Hnin]. rewrite (IH ND').
  destruct (seen k ks) eqn:E; [|reflexivity].
  apply seen_iff in E. contradiction.
Qed.

Lemma entriesOf_single (results : list BenchmarkResult) (r : BenchmarkResult) :
  NoDup (map key results) -> In r results -> entriesOf (key r) results = [r].
Proof.
  unfold entriesOf.
  induction results as [|x results IH]; intros ND Hin; [contradiction|].
  cbn [map] in ND. inversion ND as [|? ? Hx ND']; subst.
  cbn [filter]. destruct Hin as [->|Hin].
  - rewrite eqb_refl. f_equal.
    apply (@entriesOf_nil (key r) results Hx).
  - destruct (Js.eqb (key x) (key r)) eqn:E.
    + apply eqb_eq in E. exfalso. apply Hx. rewrite E. now apply in_map.
    + now apply IH.
Qed.

Lemma summarize_single (r : BenchmarkResult) :
  summarize (key r, [r]) = lineOf r.
Proof.
  unfold summarize, lineOf, mean. cbn [filter fold_left length].
  destruct (success r); reflexivity.
Qed.

(** When no pair of backend and operation occurs twice, every entry has
    its own line. *)
Lemma printResults_distinct (results : list BenchmarkResult) :
  NoDup (map key results) -> printResults results = map lineOf results.
Proof.
  intros ND. unfold printResults.
  rewrite groupedResults_table, (@firstSeen_distinct (map key results) ND), !map_map.
  apply map_ext_in. intros r Hin.
  rewrite (@entriesOf_single results r ND Hin). apply summarize_single.
Qed.

(** X17: when no key occurs twice among the results, the report has one
    line per entry, in the order of the entries: its average is the
    duration of the entry, its success rate is 100 or 0, and the error of
    a failed entry is listed alone. *)
Theorem printResults_one_each (results : list BenchmarkResult) :
  NoDup (map key results) ->
  printResults results
    = map (fun r =>
        mkSummary (key r) (mean [duration r])
                  (if success r then 100%float else 0%float)
                  (if success r then None else Some [error r]))
        results.
Proof. apply printResults_distinct. Qed.

Lemma printResults_one_each_witness :
  printResults
    [ mkResult (lit "Neon") (lit "Cold Start") 150 150 true None;
      mkResult (lit "MongoDB") (lit "Cold Start") 7 0 false
        (Some (lit "connection refused")) ]
  = [ mkSummary (lit "Neon-Cold Start") (mean [150%float]) 100 None;
      mkSummary (lit "MongoDB-Cold Start") (mean [7%float]) 0
        (Some [Some (lit "connection refused")]) ].
Proof.
  apply (@printResults_one_each
           [ mkResult (lit "Neon") (lit "Cold Start") 150 150 true None;
             mkResult (lit "MongoDB") (lit "Cold Start") 7 0 false
               (Some (lit "connection refused")) ]).
  apply distinct_NoDup. reflexivity.
Defined.

Lemma measureOperation_wellFormed {World : Type}
    (dateNow : World -> float * World) (database operation : jsstring)
    (fn : Action World) (results : list BenchmarkResult) (w : World) :
  Forall wellFormed results ->
  Forall wellFormed
    (snd (fst (measureOperation dateNow database operation fn results w))).
Proof.
  intros H. unfold measureOperation.
  destruct (dateNow w) as [start w1].
  destruct (fn w1) as [[u|e] w2]; destruct (dateNow w2) as [now w3];
    cbn [fst snd]; apply Forall_app; split; auto;
    repeat constructor; discriminate.
Qed.

(** X16: the timer keeps the results well formed: after any sequence of
    invocations every entry is either a success without error message whose
    latency is its duration, or a failure with an error message and
    latency 0. *)
Theorem invokeAll_wellFormed {World : Type}
    (dateNow : World -> float * World) (calls : list (Invocation World))
    (results : list BenchmarkResult) (w : World) :
  Forall wellFormed results ->
  Forall wellFormed (snd (fst (invokeAll dateNow calls results w))).
Proof.
  revert results w.
  induction calls as [|[[database operation] fn] calls IH];
    intros results w H; [exact H|].
  cbn [invokeAll]. unfold andThen.
  pose proof (@measureOperation_wellFormed World dateNow database operation fn
                results w H) as H1.
  destruct (measureOperation dateNow database operation fn results w)
    as [[[u|e] results'] w'].
  - apply IH. exact H1.
  - exact H1.
Qed.

Lemma invokeAll_wellFormed_witness :
  Forall wellFormed []
  /\ Forall wellFormed
       (snd (fst (invokeAll readClock
          [ (lit "Neon", lit "Simple Query", quiet);
            (lit "MongoDB", lit "Simple Query", mongo true) ]
          [] 0%float))).
Proof.
  split; [constructor|].
  apply (@invokeAll_wellFormed Clock readClock
           [ (lit "Neon", lit "Simple Query", quiet);
             (lit "MongoDB", lit "Simple Query", mongo true) ]
           [] 0%float).
  constructor.
Defined.

(** X18: the array of errors printed for a group never holds
    [undefined] when the results come from the timer: every element is the
    message of a failed entry of the group. *)
Theorem printResults_errors (results : list BenchmarkResult) :
  Forall wellFormed results ->
  Forall (fun line =>
    forall messages, errors line = Some messages ->
      Forall (fun message => message <> None) messages
      /\ messages
         = map error (filter (fun r => negb (success r))
                        (entriesOf (group line) results)))
    (printResults results).
Proof.
  intros WF. apply Forall_forall. intros line Hin messages E.
  unfold printResults in Hin. apply in_map_iff in Hin.
  destruct Hin as ([k g] & <- & Hin).
  apply groupedResults_in in Hin. destruct Hin as [_ ->].
  unfold summarize in E. cbn [errors group] in *.
  destruct (PrimFloat.ltb _ _); [|discriminate].
  injection E as <-. split; [|reflexivity].
  apply Forall_forall. intros m Hm. apply in_map_iff in Hm.
  destruct Hm as (r & <- & Hr). apply filter_In in Hr.
  destruct Hr as [Hr F]. apply entriesOf_in in Hr. destruct Hr as [Hr _].
  rewrite Forall_forall in WF. specialize (WF r Hr). unfold wellFormed in WF.
  apply negb_true_iff in F. rewrite F in WF. tauto.
Qed.

Lemma printResults_errors_witness :
  Forall wellFormed
    [ mkResult (lit "MongoDB") (lit "Cold Start") 7 0 false
        (Some (lit "connection refused")) ]
  /\ Forall (fun line =>
       forall messages, errors line = Some messages ->
         Forall (fun message => message <> None) messages
         /\ messages
            = map error (filter (fun r => negb (success r))
                (entriesOf (group line)
                   [ mkResult (lit "MongoDB") (lit "Cold Start") 7 0 false
                       (Some (lit "connection refused")) ])))
       (printResults
          [ mkResult (lit "MongoDB") (lit "Cold Start") 7 0 false
              (Some (lit "connection refused")) ]).
Proof.
  assert (WF : Forall wellFormed
    [ mkResult (lit "MongoDB") (lit "Cold Start") 7 0 false
        (Some (lit "connection refused")) ]).
  { repeat constructor. discriminate. }
  split; [exact WF|]. exact (@printResults_errors _ WF).
Defined.

End ReportFacts.

Section RunFacts.

Import Benchmark.
Import BenchmarkMain.

Variable World : Type.
Variable dateNow : World -> float * World.
Variable Row : Type.
Variable clients : Clients World Row.

(** X10: the write test is always fulfilled and files exactly three
    entries, for Neon, Supabase and MongoDB in this order, whether the
    inserts succeed or fail. *)
Theorem runWriteTest_entries (results : list BenchmarkResult) (w : World) :
  exists r1 r2 r3 w',
    runWriteTest dateNow clients results w
      = (Fulfilled tt, results ++ [r1; r2; r3], w')
    /\ label r1 = (lit "Neon", lit "Write 10k rows")
    /\ label r2 = (lit "Supabase", lit "Write 10k rows")
    /\ label r3 = (lit "MongoDB", lit "Write 10k rows").
Proof.
  destruct (runWriteTest_labels dateNow clients results w)
    as (added & w' & E & L).
  destruct added as [|r1 [|r2 [|r3 [|r4 added]]]]; try discriminate.
  exists r1, r2, r3, w'. cbn [map] in L.
  split; [exact E|]. repeat split; congruence.
Qed.

(** X11: the read test is always fulfilled and files exactly six entries:
    the simple query for Neon, Supabase and MongoDB, then the complex query
    for the three, whether the queries succeed or fail. *)
Theorem runReadTest_entries (results : list BenchmarkResult) (w : World) :
  exists added w',
    runReadTest dateNow clients results w
      = (Fulfilled tt, results ++ added, w')
    /\ map label added
       = [ (lit "Neon", lit "Simple Query");
           (lit "Supabase", lit "Simple Query");
           (lit "MongoDB", lit "Simple Query");
           (lit "Neon", lit "Complex Query");
           (lit "Supabase", lit "Complex Query");
           (lit "MongoDB", lit "Complex Query") ].
Proof. exact (runReadTest_labels dateNow clients results w). Qed.

Lemma key_of_label (results : list BenchmarkResult) :
  map key results
    = map (fun l => fst l ++ lit "-" ++ snd l) (map label results).
Proof. rewrite map_map. reflexivity. Qed.

Lemma run_keys_distinct (results : list BenchmarkResult) :
  map label results = runLabels -> NoDup (map key results).
Proof.
  intros L. rewrite key_of_label, L. apply distinct_NoDup.
  vm_compute. reflexivity.
Qed.

(** X12: a run of the three tests from an empty list of results is always
    fulfilled with eleven entries, one for each pair of backend and
    operation measured, and its report has one line per entry, in the order
    of the measurements, each with a success rate of 100 or 0. *)
Theorem runBenchmarks_report (w : World) :
  exists results w',
    runBenchmarks dateNow clients [] w = (Fulfilled tt, results, w')
    /\ map label results = runLabels
    /\ printResults results = map lineOf results.
Proof.
  destruct (runBenchmarks_labels dateNow clients [] w)
    as (added & w' & E & L).
  exists added, w'. cbn [app] in E. split; [exact E|]. split; [exact L|].
  apply printResults_distinct, run_keys_distinct, L.
Qed.

Variable connect : Action World.
Variable close : Action World.

(** X19: [main] prints a report exactly when the connection is opened,
    and then it is the report of a complete run; whether or not the
    connection is opened, [close] is awaited last, and the promise of
    [main] settles as [close] does. *)
Theorem main_report (w : World) :
  match connect w with
  | (Fulfilled _, w1) =>
    exists results w2,
      runBenchmarks dateNow clients [] w1 = (Fulfilled tt, results, w2)
      /\ map label results = runLabels
      /\ main dateNow clients connect close w
         = (Some (printResults results), fst (close w2), snd (close w2))
  | (Rejected _, w1) =>
    main dateNow clients connect close w
      = (None, fst (close w1), snd (close w1))
  end.
Proof.
  unfold main. destruct (connect w) as [[u|e] w1].
  - destruct (runBenchmarks_labels dateNow clients [] w1)
      as (added & w2 & E & L).
    cbn [app] in E. exists added, w2. rewrite E.
    destruct (close w2). auto.
  - destruct (close w1). reflexivity.
Qed.

End RunFacts.

(* ================================================================== *)
(** * The HTTP worker *)
(* ================================================================== *)

Section ApiFacts.

Import Api.

Variable World : Type.
Variable backend : Backend World.

(** X20: a request for any path other than the two routes is answered
    404 [Not Found] whatever its method, and no query is issued; and no
    other request is answered 404. *)
Theorem fetch_not_found (request : Request) (w : World) :
  (path request <> lit "/api/items"
   /\ path request <> lit "/api/items/search"
   -> fetch backend request w = (notFound, w))
  /\ (status (fst (fetch backend request w)) = 404%N
      -> path request <> lit "/api/items"
         /\ path request <> lit "/api/items/search").
Proof.
  unfold fetch. split.
  - intros [H1 H2]. apply eqb_neq in H1, H2. now rewrite H1, H2.
  - destruct (Js.eqb (path request) (lit "/api/items")) eqn:E1.
    + destruct (Js.eqb (method request) (lit "GET")).
      { destruct (selectItems backend _ _ w) as [[items|e] w'];
          cbn; discriminate. }
      destruct (Js.eqb (method request) (lit "POST")); [|cbn; discriminate].
      destruct (requestJson backend w) as [[json|e] w1]; [|cbn; discriminate].
      destruct (property "name" json), (property "description" json);
        try (cbn; discriminate).
      destruct (insertItem backend _ _ w1) as [[result|e] w2];
        cbn; discriminate.
    + destruct (Js.eqb (path request) (lit "/api/items/search")) eqn:E2.
      * destruct (Js.eqb (method request) (lit "GET")); [|cbn; discriminate].
        destruct (searchItems backend _ _ w) as [[items|e] w'];
          cbn; discriminate.
      * intros _. apply eqb_neq in E1, E2. auto.
Qed.

(** X21: on either route a method that the route does not handle is
    answered 405 [Method Not Allowed], and no query is issued. *)
Theorem fetch_method_not_allowed (request : Request) (w : World) :
  (path request = lit "/api/items"
   /\ method request <> lit "GET" /\ method request <> lit "POST")
  \/ (path request = lit "/api/items/search"
      /\ method request <> lit "GET") ->
  fetch backend request w = (methodNotAllowed, w).
Proof.
  unfold fetch. intros [(P & G & Q)|(P & G)]; rewrite P.
  - apply eqb_neq in G, Q. now rewrite eqb_refl, G, Q.
  - apply eqb_neq in G.
    change (Js.eqb (lit "/api/items/search") (lit "/api/items")) with false.
    now rewrite eqb_refl, G.
Qed.

(** X22: a failure inside a route is not passed on: when the query of a
    route is rejected, when the posted body cannot be read as JSON, or when it
    is [null], the answer is 500 with the JSON body that holds
    [Internal Server Error]. *)
Theorem fetch_internal_error (params : list (jsstring * jsstring))
    (w : World) :
  (forall limit offset e w',
     selectItems backend limit offset w = (Rejected e, w') ->
     limit = parseInt (getOr "limit" "10" params) ->
     offset = PrimFloat.mul
                (PrimFloat.sub (parseInt (getOr "page" "1" params)) 1) limit ->
     fetch backend (mkRequest (lit "/api/items") (lit "GET") params) w
       = (internalError, w'))
  /\ (forall e w',
     requestJson backend w = (Rejected e, w') ->
     fetch backend (mkRequest (lit "/api/items") (lit "POST") params) w
       = (internalError, w'))
  /\ (forall w',
     requestJson backend w = (Fulfilled JNull, w') ->
     fetch backend (mkRequest (lit "/api/items") (lit "POST") params) w
       = (internalError, w'))
  /\ (forall json name description e w1 w2,
     requestJson backend w = (Fulfilled json, w1) ->
     property "name" json = Some name ->
     property "description" json = Some description ->
     insertItem backend name description w1 = (Rejected e, w2) ->
     fetch backend (mkRequest (lit "/api/items") (lit "POST") params) w
       = (internalError, w2))
  /\ (forall pattern e w',
     searchItems backend pattern pattern w = (Rejected e, w') ->
     pattern = lit "%" ++ match get (lit "q") params with
                          | Some q => q
                          | None => []
                          end ++ lit "%" ->
     fetch backend (mkRequest (lit "/api/items/search") (lit "GET") params) w
       = (internalError, w')).
Proof.
  unfold fetch. cbn [path method searchParams].
  change (Js.eqb (lit "/api/items") (lit "/api/items")) with true.
  change (Js.eqb (lit "/api/items/search") (lit "/api/items")) with false.
  change (Js.eqb (lit "/api/items/search") (lit "/api/items/search"))
    with true.
  change (Js.eqb (lit "GET") (lit "GET")) with true.
  change (Js.eqb (lit "POST") (lit "GET")) with false.
  change (Js.eqb (lit "POST") (lit "POST")) with true.
  cbv iota.
  split; [|split; [|split; [|split]]].
  - intros limit offset e w' H -> ->. now rewrite H.
  - intros e w' H. now rewrite H.
  - intros w' H. now rewrite H.
  - intros json name description e w1 w2 H Hn Hd Hi.
    now rewrite H, Hn, Hd, Hi.
  - intros pattern e w' H ->. cbv zeta.
    match type of H with
    | ?call = _ =>
      match goal with
      | |- context [searchItems backend ?a ?b w] =>
        change (searchItems backend a b w) with call
      end
    end.
    now rewrite H.
Qed.

(** X23: without [page] and [limit], or with empty ones, the list of
    items is asked with LIMIT 10 and OFFSET 0: page 1 of ten items. *)
Theorem fetch_default_page (params : list (jsstring * jsstring))
    (w : World) :
  (get (lit "page") params = None \/ get (lit "page") params = Some []) ->
  (get (lit "limit") params = None \/ get (lit "limit") params = Some []) ->
  fetch backend (mkRequest (lit "/api/items") (lit "GET") params) w
  = match selectItems backend 10%float 0%float w with
    | (Fulfilled items, w') =>
      (mkResponse 200 (Json (Some (JArray items))) jsonHeaders, w')
    | (Rejected _, w') => (internalError, w')
    end.
Proof.
  intros Hp Hl. unfold fetch. cbn [path method searchParams].
  change (Js.eqb (lit "/api/items") (lit "/api/items")) with true.
  change (Js.eqb (lit "GET") (lit "GET")) with true. cbv iota.
  assert (P : getOr "page" "1" params = lit "1")
    by (unfold getOr; destruct Hp as [-> | ->]; reflexivity).
  assert (L : getOr "limit" "10" params = lit "10")
    by (unfold getOr; destruct Hl as [-> | ->]; reflexivity).
  rewrite P, L.
  change (parseInt (lit "10")) with 10%float.
  change (PrimFloat.mul (PrimFloat.sub (parseInt (lit "1")) 1) 10)
    with 0%float.
  reflexivity.
Qed.

Lemma parseInt_no_digit (c : N) (r : jsstring) :
  isSpace c = false -> isDigit c = false -> c <> 45%N -> c <> 43%N ->
  parseInt (c :: r) = nan.
Proof.
  intros Hs Hd H45 H43. unfold parseInt. cbn [trimStart]. rewrite Hs.
  unfold signOf. cbn [expect].
  apply N.eqb_neq in H45, H43. rewrite H45, H43.
  unfold radixOf. cbn [expect].
  assert (H48 : (c =? 48)%N = false).
  { apply N.eqb_neq. intros ->. discriminate. }
  rewrite H48. cbn [digitsValue]. unfold digitValue. rewrite Hd.
  destruct ((97 <=? c) && (c <=? 122))%N eqn:L.
  - apply andb_true_iff in L. destruct L as [L _]. apply N.leb_le in L.
    assert (E : (c - 87 <? 10)%N = false) by (apply N.ltb_ge; lia).
    now rewrite E.
  - destruct ((65 <=? c) && (c <=? 90))%N eqn:U; [|reflexivity].
    apply andb_true_iff in U. destruct U as [U _]. apply N.leb_le in U.
    assert (E : (c - 55 <? 10)%N = false) by (apply N.ltb_ge; lia).
    now rewrite E.
Qed.

(** X24: a [limit] that does not start with a digit, a sign or white
    space is not refused: the list of items is asked with NaN as its
    LIMIT, and the answer is whatever the query then gives. *)
Theorem fetch_limit_not_checked (params : list (jsstring * jsstring))
    (c : N) (r : jsstring) (w : World) :
  get (lit "limit") params = Some (c :: r) ->
  isSpace c = false -> isDigit c = false -> c <> 45%N -> c <> 43%N ->
  fetch backend (mkRequest (lit "/api/items") (lit "GET") params) w
  = match selectItems backend nan
            (PrimFloat.mul
               (PrimFloat.sub (parseInt (getOr "page" "1" params)) 1) nan)
            w with
    | (Fulfilled items, w') =>
      (mkResponse 200 (Json (Some (JArray items))) jsonHeaders, w')
    | (Rejected _, w') => (internalError, w')
    end.
Proof.
  intros G Hs Hd H45 H43. unfold fetch. cbn [path method searchParams].
  change (Js.eqb (lit "/api/items") (lit "/api/items")) with true.
  change (Js.eqb (lit "GET") (lit "GET")) with true. cbv iota zeta.
  assert (L : getOr "limit" "10" params = c :: r)
    by (unfold getOr; now rewrite G).
  rewrite L, (@parseInt_no_digit c r Hs Hd H45 H43). reflexivity.
Qed.

End ApiFacts.

Lemma fetch_not_found_witness :
  Api.fetch (Api.testBackend false JNull)
    (Api.mkRequest (lit "/api/users") (lit "GET") []) 0
  = (Api.notFound, 0).
Proof.
  apply (proj1 (@fetch_not_found nat (Api.testBackend false JNull)
                  (Api.mkRequest (lit "/api/users") (lit "GET") []) 0)).
  split; discriminate.
Defined.

Lemma fetch_method_not_allowed_witness :
  Api.fetch (Api.testBackend false JNull)
    (Api.mkRequest (lit "/api/items/search") (lit "POST") []) 0
  = (Api.methodNotAllowed, 0).
Proof.
  apply (@fetch_method_not_allowed nat (Api.testBackend false JNull)
           (Api.mkRequest (lit "/api/items/search") (lit "POST") []) 0).
  right. split; [reflexivity | discriminate].
Defined.

Lemma fetch_internal_error_witness :
  Api.fetch (Api.testBackend false JNull)
    (Api.mkRequest (lit "/api/items") (lit "POST") []) 0
  = (Api.internalError, 0)
  /\ Api.fetch (Api.testBackend true (JObject []))
       (Api.mkRequest (lit "/api/items/search") (lit "GET")
          [(lit "q", lit "tea")]) 0
     = (Api.internalError, 1).
Proof.
  split.
  - apply (proj1 (proj2 (proj2 (@fetch_internal_error nat
             (Api.testBackend false JNull) [] 0)))).
    reflexivity.
  - apply (proj2 (proj2 (proj2 (proj2 (@fetch_internal_error nat
             (Api.testBackend true (JObject [])) [(lit "q", lit "tea")] 0))))
           (lit "%tea%") (ErrorInstance (lit "connection refused")) 1);
      reflexivity.
Defined.

Lemma fetch_default_page_witness :
  Api.fetch (Api.testBackend false JNull)
    (Api.mkRequest (lit "/api/items") (lit "GET") [(lit "page", [])]) 0
  = (Api.mkResponse 200 (Api.Json (Some (JArray []))) Api.jsonHeaders, 1).
Proof.
  apply (@fetch_default_page nat (Api.testBackend false JNull)
           [(lit "page", [])] 0); [right | left]; reflexivity.
Defined.

(** A run against a MongoDB that is down: the other backends are measured
    all the same, and every MongoDB entry is a failure. *)
Example run_with_mongo_down :
  map Benchmark.success
    (snd (fst (Benchmark.runBenchmarks Benchmark.readClock
                 (BenchmarkMain.testClients true) [] 0%float)))
  = [true; true; false; true; true; false; true; true; false; true; false].
Proof. vm_compute. reflexivity. Qed.

(** [parseInt] on what a query string can hold. *)
Example parseInt_examples :
  Api.parseInt (lit "25") = 25%float
  /\ Api.parseInt (lit "  -7px") = (-7)%float
  /\ Api.parseInt (lit "0x1f") = 31%float
  /\ Api.parseInt (lit "12.9") = 12%float
  /\ Api.parseInt (lit "9007199254740993") = 9007199254740992%float
  /\ PrimFloat.is_nan (Api.parseInt (lit "ten")) = true
  /\ PrimFloat.is_nan (Api.parseInt (lit "0x")) = true
  /\ PrimFloat.is_nan (Api.parseInt []) = true.
Proof. vm_compute. repeat split. Qed.

Lemma fetch_limit_not_checked_witness :
  Api.fetch (Api.testBackend false JNull)
    (Api.mkRequest (lit "/api/items") (lit "GET") [(lit "limit", lit "ten")])
    0
  = (Api.mkResponse 200 (Api.Json (Some (JArray []))) Api.jsonHeaders, 1).
Proof.
  apply (@fetch_limit_not_checked nat (Api.testBackend false JNull)
           [(lit "limit", lit "ten")] 116%N (lit "en") 0);
    (reflexivity || discriminate).
Defined.
